(** * Masking engine and training loop of the BLT layout trainer

    Shallow embedding of [layout_blt/trainer.py]: the stochastic masking
    ([BLT_masking]), the positional masking ([test_masking]), the rate
    schedules of [Trainer.run_epoch_], the NaN guard
    ([check_for_nan_gradients]), the epoch loop ([Trainer.train]) and the
    paths of the checkpoint files ([save_checkpoint], [load_checkpoint]).

    Conventions.  Tokens are Python/torch integers, modelled as [Z].  A batch
    is a tensor of shape (B, L), modelled as a list of B rows.  Float scores
    and rates are modelled by the rationals they denote ([Q]); they are only
    compared, sorted, and multiplied once ([lens * mask_rate]).  [mask_lens]
    takes that one product exactly; torch takes it in float32, which
    [float32_mask_lens] follows, and what is stated about the value of the
    target count is stated where the two agree or for every gather index.
    The mask rates of [run_epoch_] are binary64 values in the program and
    exact rationals here; of their range only the bounds that rounding keeps
    are stated.  The learning-rate multiplier needs [cos] and is stated over
    [R]. *)

From Stdlib Require Import String Ascii.
From Stdlib Require Import Reals Lra.
From Stdlib Require Import ZArith QArith Qround Qminmax Qpower List Bool Lia.
From Stdlib Require Import Permutation Sorted Orders Mergesort.
From Stdlib Require DecimalString DecimalZ DecimalPos.
Import ListNotations.

Local Open Scope Z_scope.

(** ** Python exceptions and results *)

Inductive exn : Type :=
| RuntimeError        (* torch: index out of range, [.item()] on several elements *)
| ValueError          (* [max()] of an empty sequence, [int()] of a non-number *)
| TypeError           (* [os.path.join(None, ...)], [float < None] *)
| UnboundLocalError   (* a local variable read before assignment *)
| ZeroDivisionError
| EOFError.

Inductive result (A : Type) : Type :=
| Ok (a : A)
| Raise (e : exn).
Arguments Ok {A} a.
Arguments Raise {A} e.

Definition bind {A B : Type} (r : result A) (k : A -> result B) : result B :=
  match r with
  | Ok a => k a
  | Raise e => Raise e
  end.

Notation "x <- r ;; k" := (bind r (fun x => k))
  (at level 61, r at next level, right associativity).

(** ** Tensors *)

Definition batch := list (list Z).

(** Every row of a tensor of shape (B, L) has length L. *)
Definition rectangular (L : nat) (inputs : batch) : Prop :=
  Forall (fun s => length s = L) inputs.

(** [inputs.shape[1]] *)
Definition shape1 (inputs : batch) : nat := length (hd [] inputs).

(** ** Sorting scores: [torch.sort(..., dim=-1)] returns the ascending values *)

Module ScoreOrder <: TotalLeBool.
Definition t := Q.
Definition leb (x y : Q) : bool := Qle_bool x y.
Lemma leb_total : forall x y, leb x y = true \/ leb y x = true.
Proof.
  intros x y. unfold leb. rewrite !Qle_bool_iff.
  destruct (Qlt_le_dec x y) as [H|H]; [left; apply Qlt_le_weak|right]; exact H.
Qed.
End ScoreOrder.

Module ScoreSort := Sort ScoreOrder.

Definition torch_sort (l : list Q) : list Q := ScoreSort.sort l.

(** ** The global random generator

    [stream s n] is the n-th value that the generator produces after it was
    seeded with [s].  The state of the generator is the seed it was last
    seeded with and the number of values drawn since. *)

Record Generator : Type := { seed : Z; offset : nat }.

(** [torch.initial_seed()] *)
Definition initial_seed (g : Generator) : Z := seed g.

(** [torch.manual_seed(s)] *)
Definition manual_seed (s : Z) (g : Generator) : Generator :=
  {| seed := s; offset := 0 |}.

Section Rand.
Variable stream : Z -> nat -> Q.

(** The values a generator in state [g] yields next. *)
Definition draws (g : Generator) (n : nat) : list Q :=
  map (fun j => stream (seed g) (offset g + j)) (seq 0 n).

(** [torch.rand((B, L))] *)
Definition torch_rand (B L : nat) (g : Generator) : list (list Q) * Generator :=
  (map (fun i => map (fun j => stream (seed g) (offset g + i * L + j)) (seq 0 L))
       (seq 0 B),
   {| seed := seed g; offset := offset g + B * L |}).
End Rand.

(** ** [BLT_masking] *)

(** [(inputs != pad_token) & (inputs != eos_token)] on one row *)
Definition maskable (eos_token pad_token t : Z) : bool :=
  negb (t =? pad_token) && negb (t =? eos_token).

Definition should_mask_row (eos_token pad_token : Z) (s : list Z) : list bool :=
  map (maskable eos_token pad_token) s.

(** [torch.sum(should_mask, axis=-1)] *)
Definition lens (should_mask : list bool) : Z :=
  Z.of_nat (count_occ bool_dec should_mask true).

(** [torch.ceil(lens * mask_rate).to(torch.int64)] *)
Definition mask_lens (n : Z) (mask_rate : Q) : Z :=
  Qceiling (inject_Z n * mask_rate).

(** [rand[~should_mask] = 2.0] *)
Definition fill_unmaskable (should_mask : list bool) (rand : list Q) : list Q :=
  map (fun br : bool * Q => if fst br then snd br else 2%Q) (combine should_mask rand).

(** [torch.cat((rand, -1 * ones), dim=1)] *)
Definition inserted_rand (rand : list Q) : list Q := rand ++ [(-1)%Q].

(** [sorted_rand.gather(-1, k)]: an index outside [0, size) raises. *)
Definition gather (sorted_rand : list Q) (k : Z) : result Q :=
  if (0 <=? k) && (k <? Z.of_nat (length sorted_rand)) then
    match nth_error sorted_rand (Z.to_nat k) with
    | Some c => Ok c
    | None => Raise RuntimeError
    end
  else Raise RuntimeError.

(** [cut_off[cut_off == 2.0] = 1.0] *)
Definition clamp_cut_off (c : Q) : Q := if Qeq_bool c 2 then 1%Q else c.

(** The cutoff of one row, before the clamp:
    [sorted_rand.gather(-1, mask_lens)] with [sorted_rand] the sorted
    [inserted_rand]. *)
Definition row_cut_off (should_mask : list bool) (rand : list Q) (mask_rate : Q)
  : result Q :=
  gather (torch_sort (inserted_rand rand)) (mask_lens (lens should_mask) mask_rate).

(** One row of the batched computation. *)
Definition mask_row (mask_token eos_token pad_token : Z) (mask_rate : Q)
           (s : list Z) (rand : list Q) : result (list Z * list bool) :=
  let should_mask := should_mask_row eos_token pad_token s in
  let rand := fill_unmaskable should_mask rand in
  cut_off <- row_cut_off should_mask rand mask_rate ;;
  let cut_off := clamp_cut_off cut_off in
  let should_mask :=
    map (fun br : bool * Q => fst br && Qle_bool (snd br) cut_off) (combine should_mask rand) in
  Ok (map (fun bt : bool * Z => if fst bt then mask_token else snd bt) (combine should_mask s),
      should_mask).

Fixpoint mask_rows (mask_token eos_token pad_token : Z) (mask_rate : Q)
         (inputs : batch) (rand : list (list Q))
  : result (batch * list (list bool)) :=
  match inputs, rand with
  | s :: inputs', r :: rand' =>
      row <- mask_row mask_token eos_token pad_token mask_rate s r ;;
      rest <- mask_rows mask_token eos_token pad_token mask_rate inputs' rand' ;;
      Ok (fst row :: fst rest, snd row :: snd rest)
  | _, _ => Ok ([], [])
  end.

Section Masking.
Variable stream : Z -> nat -> Q.

(** The scores drawn by a call of [BLT_masking] that starts in state [g]. *)
Definition drawn_scores (inputs : batch) (training : bool) (g : Generator)
  : list (list Q) :=
  fst (torch_rand stream (length inputs) (shape1 inputs)
                  (if training then g else manual_seed 0 g)).

Definition BLT_masking (inputs : batch) (mask_token eos_token pad_token : Z)
           (mask_rate : Q) (training : bool) (g : Generator)
  : result (batch * list (list bool)) * Generator :=
  let original_seed := initial_seed g in
  let g := if training then g else manual_seed 0 g in
  let '(rand, g) := torch_rand stream (length inputs) (shape1 inputs) g in
  match mask_rows mask_token eos_token pad_token mask_rate inputs rand with
  | Raise e => (Raise e, g)
  | Ok r => (Ok r, if training then g else manual_seed original_seed g)
  end.
End Masking.

(** ** [test_masking] *)

(** [(seq == eos_token).nonzero(as_tuple=True)[0]]: the indices holding
    [eos_token], counted from [j]. *)
Fixpoint nonzero_from (eos_token : Z) (j : nat) (s : list Z) : list nat :=
  match s with
  | [] => []
  | t :: s' =>
      if t =? eos_token then j :: nonzero_from eos_token (S j) s'
      else nonzero_from eos_token (S j) s'
  end.

(** [... .item() if eos_token in seq else len(seq)]: [.item()] accepts a
    tensor of exactly one element. *)
Definition eos_index (eos_token : Z) (s : list Z) : result nat :=
  match nonzero_from eos_token 0 s with
  | [] => Ok (length s)
  | [p] => Ok p
  | _ :: _ :: _ => Raise RuntimeError
  end.

(** [torch.isin(r, torch.tensor([1, 2]))] *)
Definition isin_1_2 (r : nat) : bool := existsb (Nat.eqb r) [1%nat; 2%nat].

(** The two branches on the parity of the row index [i]. *)
Definition mask_indices (i seq_len : nat) : list nat :=
  if (i mod 2 =? 0)%nat then
    filter (fun j => isin_1_2 (j mod 7)) (seq 0 seq_len)
  else
    filter (fun j => isin_1_2 (j mod 7)) (seq 0 seq_len).

(** [t[j] = v] *)
Fixpoint set_at {A : Type} (l : list A) (j : nat) (v : A) : list A :=
  match l, j with
  | [], _ => []
  | _ :: l', O => v :: l'
  | x :: l', S j' => x :: set_at l' j' v
  end.

(** [t[idx] = v] for a tensor of indices *)
Definition index_put {A : Type} (l : list A) (idx : list nat) (v : A) : list A :=
  fold_left (fun acc j => set_at acc j v) idx l.

(** [dst[:n] = src] where [src] has the n elements of the slice *)
Definition assign_prefix {A : Type} (dst src : list A) : list A :=
  src ++ skipn (length src) dst.

(** The body of the loop over the rows. *)
Definition test_mask_row (mask_token eos_token pad_token : Z) (max_len i : nat)
           (s : list Z) : result (list Z * list bool) :=
  seq_len <- eos_index eos_token s ;;
  let masked := assign_prefix (repeat pad_token max_len) (firstn (seq_len + 1) s) in
  let idx := mask_indices i seq_len in
  Ok (index_put masked idx mask_token, index_put (repeat false max_len) idx true).

Fixpoint test_mask_rows (mask_token eos_token pad_token : Z) (max_len i : nat)
         (inputs : batch) : result (batch * list (list bool)) :=
  match inputs with
  | [] => Ok ([], [])
  | s :: inputs' =>
      row <- test_mask_row mask_token eos_token pad_token max_len i s ;;
      rest <- test_mask_rows mask_token eos_token pad_token max_len (S i) inputs' ;;
      Ok (fst row :: fst rest, snd row :: snd rest)
  end.

(** [max(len(s) for s in inputs)] raises [ValueError] on an empty batch. *)
Definition test_masking (inputs : batch) (mask_token eos_token pad_token : Z)
  : result (batch * list (list bool)) :=
  match inputs with
  | [] => Raise ValueError
  | _ :: _ =>
      test_mask_rows mask_token eos_token pad_token
                     (fold_right Nat.max 0%nat (map (@length Z) inputs)) 0 inputs
  end.

(** ** [TrainerConfig] *)

Record TrainerConfig : Type := {
  max_epochs : Z;
  learning_rate : Q;
  grad_norm_clip : Q;
  lr_decay : bool;
  warmup_iters : Z;
  final_iters : Z;
  start_mask_rate : Q;
  end_mask_rate : Q;
  full_mask_rate_at : Z;
  ckpt_dir : option string;
  samples_dir : option string;
  sample_every : Z
}.

(** The class attributes of [TrainerConfig]. *)
Definition default_config : TrainerConfig := {|
  max_epochs := 10;
  learning_rate := 3 # 10000;
  grad_norm_clip := 1;
  lr_decay := true;
  warmup_iters := 5000;
  final_iters := 25000;
  start_mask_rate := 15 # 100;
  end_mask_rate := 7 # 10;
  full_mask_rate_at := 25000;
  ckpt_dir := None;
  samples_dir := None;
  sample_every := 1
|}.

Definition set_max_epochs (cfg : TrainerConfig) (n : Z) : TrainerConfig := {|
  max_epochs := n;
  learning_rate := learning_rate cfg;
  grad_norm_clip := grad_norm_clip cfg;
  lr_decay := lr_decay cfg;
  warmup_iters := warmup_iters cfg;
  final_iters := final_iters cfg;
  start_mask_rate := start_mask_rate cfg;
  end_mask_rate := end_mask_rate cfg;
  full_mask_rate_at := full_mask_rate_at cfg;
  ckpt_dir := ckpt_dir cfg;
  samples_dir := samples_dir cfg;
  sample_every := sample_every cfg
|}.

(** ** Rate schedules of [Trainer.run_epoch_] *)

(** The mask rate of batch number [it] of a pass over [total] batches;
    [u] is the value of [random.random()]. *)
Definition mask_rate_at (cfg : TrainerConfig) (is_train : bool) (u : Q)
           (it total : Z) : Q :=
  if is_train then
    start_mask_rate cfg + (end_mask_rate cfg - start_mask_rate cfg) * u
  else
    (15 # 100) + ((7 # 10) - (15 # 100)) * Qmin (inject_Z it / inject_Z total) 1.

(** The multiplier computed after [self.iters += 1]. *)
Definition lr_mult (warmup final iters : Z) : R :=
  if iters <? warmup then
    (IZR iters / IZR (Z.max 1 warmup))%R
  else
    let progress := Rmin 1 (IZR (iters - warmup) / IZR (Z.max 1 (final - warmup))) in
    Rmax (1 / 10) (1 / 2 * (1 + cos (PI * progress))).

(** The learning rate written to every parameter group. *)
Definition lr_at (cfg : TrainerConfig) (iters : Z) : R :=
  if lr_decay cfg then
    (Q2R (learning_rate cfg) * lr_mult (warmup_iters cfg) (final_iters cfg) iters)%R
  else Q2R (learning_rate cfg).

(** The multiplier as the specification words it, with the two-sided clamp. *)
Definition clamp (x lo hi : R) : R := Rmax lo (Rmin hi x).

Definition spec_multiplier (warmup final iteration : Z) : R :=
  if iteration <? warmup then
    (IZR iteration / IZR (Z.max 1 warmup))%R
  else
    let progress :=
      clamp (IZR (iteration - warmup) / IZR (Z.max 1 (final - warmup))) 0 1 in
    Rmax (1 / 10) (1 / 2 * (1 + cos (PI * progress))).

(** ** Gradients and the NaN guard *)

(** A float: a finite value, an infinity or NaN. *)
Inductive fval : Type :=
| Fin (q : Q)
| PInf
| NInf
| NaN.

(** [torch.isnan] *)
Definition isnan (v : fval) : bool :=
  match v with NaN => true | _ => false end.

Definition isinf (v : fval) : bool :=
  match v with PInf | NInf => true | _ => false end.

Definition isfinite (v : fval) : bool :=
  match v with Fin _ => true | _ => false end.

(** [model.named_parameters()] with [param.grad], which may be [None]. *)
Definition named_parameters := list (string * option (list fval)).

(** [torch.isnan(grad).sum()] *)
Definition nan_count (grad : list fval) : Z :=
  Z.of_nat (List.length (filter isnan grad)).

Fixpoint check_for_nan_gradients (model : named_parameters) : bool :=
  match model with
  | [] => false
  | (_, grad) :: rest =>
      match grad with
      | Some g =>
          if nan_count g >? 0 then true else check_for_nan_gradients rest
      | None => check_for_nan_gradients rest
      end
  end.

(** Some gradient holds a value that is not finite. *)
Definition has_non_finite (model : named_parameters) : Prop :=
  exists name g v, In (name, Some g) model /\ In v g /\ isfinite v = false.

Definition has_nan (model : named_parameters) : Prop :=
  exists name g, In (name, Some g) model /\ In NaN g.

Definition has_inf (model : named_parameters) : Prop :=
  exists name g v, In (name, Some g) model /\ In v g /\ isinf v = true.

Definition all_finite (model : named_parameters) : Prop :=
  forall name g v, In (name, Some g) model -> In v g -> isfinite v = true.

(** ** The target count in float32

    [lens] is an int64 tensor and [mask_rate] a Python float, so
    [lens * mask_rate] is a float32 tensor: both operands are converted to
    float32 and the product is rounded to float32, to the nearest value with
    ties to even, before [torch.ceil] sees it. *)

(** floor(log2 x) of a positive rational. *)
Definition Qlog2 (x : Q) : Z :=
  let l := Z.log2 (Qnum x) - Z.log2 (Zpos (Qden x)) in
  if Qle_bool (2 ^ l) x then l else l - 1.

(** The nearest integer, ties to even. *)
Definition round_half_even (y : Q) : Z :=
  let f := Qfloor y in
  match (y - inject_Z f ?= 1 # 2)%Q with
  | Lt => f
  | Gt => f + 1
  | Eq => if Z.even f then f else f + 1
  end.

(** The nearest binary32 number to a positive rational, before the test for
    overflow: 24 bits of precision, least exponent -149. *)
Definition round32_pos (x : Q) : Q :=
  let e := Z.max (Qlog2 x - 23) (-149) in
  (inject_Z (round_half_even (x / 2 ^ e)) * 2 ^ e)%Q.

Definition round32 (x : Q) : Q :=
  match (x ?= 0)%Q with
  | Eq => 0%Q
  | Gt => round32_pos x
  | Lt => (- round32_pos (- x))%Q
  end.

(** Conversion to float32; beyond the largest float32 it gives an infinity. *)
Definition float32 (x : Q) : fval :=
  let r := round32 x in
  if Qle_bool (2 ^ 128) r then PInf
  else if Qle_bool r (- 2 ^ 128) then NInf
  else Fin r.

(** The float32 product. *)
Definition fmul32 (a b : fval) : fval :=
  match a, b with
  | NaN, _ | _, NaN => NaN
  | Fin x, Fin y => float32 (x * y)
  | Fin x, PInf | PInf, Fin x =>
      match (x ?= 0)%Q with Eq => NaN | Gt => PInf | Lt => NInf end
  | Fin x, NInf | NInf, Fin x =>
      match (x ?= 0)%Q with Eq => NaN | Gt => NInf | Lt => PInf end
  | PInf, PInf | NInf, NInf => PInf
  | PInf, NInf | NInf, PInf => NInf
  end.

(** [torch.ceil] *)
Definition fceil (x : fval) : fval :=
  match x with
  | Fin q => Fin (inject_Z (Qceiling q))
  | _ => x
  end.

(** [.to(torch.int64)].  For a value that is not finite or does not fit the
    conversion is undefined; the value given here is the one of x86-64. *)
Definition to_int64 (x : fval) : Z :=
  match x with
  | Fin q =>
      let z := Z.quot (Qnum q) (Zpos (Qden q)) in
      if (- 2 ^ 63 <=? z) && (z <? 2 ^ 63) then z else - 2 ^ 63
  | _ => - 2 ^ 63
  end.

(** [torch.ceil(lens * mask_rate).to(torch.int64)] as torch computes it. *)
Definition float32_mask_lens (n : Z) (mask_rate : Q) : Z :=
  to_int64 (fceil (fmul32 (float32 (inject_Z n)) (float32 mask_rate))).

(** ** The training pass of [run_epoch_]

    Of the trainer only the iteration counter and the number of optimizer
    steps applied so far are followed.  The forward and backward passes
    belong to the model: a batch is represented by the gradients that
    [loss.backward()] leaves in the parameters. *)

Record Trainer : Type := { iters : Z; optimizer_steps : Z }.

Inductive pass_end : Type :=
| PassCompleted      (* the loop over the batches ran to its end *)
| PassAborted.       (* the bare [return] of the NaN guard *)

Section TrainingPass.
(** [torch.nn.utils.clip_grad_norm_(parameters, max_norm)], in place. *)
Variable clip_grad_norm_ : Q -> named_parameters -> named_parameters.

(** The [if is_train:] block of one batch; [None] is the early [return]. *)
Definition train_batch (cfg : TrainerConfig) (t : Trainer)
           (backward : named_parameters) : option Trainer :=
  let model := clip_grad_norm_ (grad_norm_clip cfg) backward in
  if check_for_nan_gradients model then None
  else Some {| iters := iters t + 1; optimizer_steps := optimizer_steps t + 1 |}.

Fixpoint run_epoch_train (cfg : TrainerConfig) (t : Trainer)
         (batches : list named_parameters) : pass_end * Trainer :=
  match batches with
  | [] => (PassCompleted, t)
  | backward :: rest =>
      match train_batch cfg t backward with
      | None => (PassAborted, t)
      | Some t' => run_epoch_train cfg t' rest
      end
  end.
End TrainingPass.

(** ** The epoch loop [Trainer.train] *)

(** [a < b] on Python floats. *)
Definition flt (a b : fval) : bool :=
  match a, b with
  | NaN, _ | _, NaN => false
  | _, NInf => false
  | NInf, _ => true
  | PInf, _ => false
  | Fin _, PInf => true
  | Fin x, Fin y => negb (Qle_bool y x)
  end.

(** The value of a Python variable that holds a float or [None]. *)
Inductive pyval : Type :=
| PyNone
| PyFloat (v : fval).

(** What the loop does to the outside, in order. *)
Inductive event : Type :=
| RunEpoch (epoch : Z) (split : string)   (* [self.run_epoch_(epoch, split)] *)
| SaveCheckpoint (id : option Z)          (* [self.save_checkpoint(id)] wrote its file *)
| Sample (epoch : Z)                      (* [self.test(epoch)] *)
| Input (line : string).                  (* [input()] returned [line] *)

(** The local variables of [train], the configuration it mutates, the
    operator's pending lines and the events so far.  [test_loss] is [None]
    while the variable is unbound. *)
Record LoopState : Type := {
  config : TrainerConfig;
  epoch : Z;
  best_loss : pyval;
  test_loss : option pyval;
  stdin : list string;
  events : list event
}.

Definition emit (e : event) (st : LoopState) : LoopState := {|
  config := config st; epoch := epoch st; best_loss := best_loss st;
  test_loss := test_loss st; stdin := stdin st; events := events st ++ [e]
|}.

Definition set_epoch (n : Z) (st : LoopState) : LoopState := {|
  config := config st; epoch := n; best_loss := best_loss st;
  test_loss := test_loss st; stdin := stdin st; events := events st
|}.

Definition set_test_loss (v : pyval) (st : LoopState) : LoopState := {|
  config := config st; epoch := epoch st; best_loss := best_loss st;
  test_loss := Some v; stdin := stdin st; events := events st
|}.

Definition set_best_loss (v : pyval) (st : LoopState) : LoopState := {|
  config := config st; epoch := epoch st; best_loss := v;
  test_loss := test_loss st; stdin := stdin st; events := events st
|}.

Definition set_stdin (l : list string) (st : LoopState) : LoopState := {|
  config := config st; epoch := epoch st; best_loss := best_loss st;
  test_loss := test_loss st; stdin := l; events := events st
|}.

Definition extend_max_epochs (n : Z) (st : LoopState) : LoopState := {|
  config := set_max_epochs (config st) (max_epochs (config st) + n);
  epoch := epoch st; best_loss := best_loss st;
  test_loss := test_loss st; stdin := stdin st; events := events st
|}.

(** How a statement ends: normally, or by an exception, in the state
    reached when it was raised. *)
Inductive stmt_end : Type :=
| Done (st : LoopState)
| Throw (e : exn) (st : LoopState).

(** Statements in sequence. *)
Definition and_then (r : stmt_end) (k : LoopState -> stmt_end) : stmt_end :=
  match r with
  | Done st => k st
  | Throw e st => Throw e st
  end.

Notation "r >>= k" := (and_then r k) (at level 58, left associativity).

(** How one turn of [while True] ends. *)
Inductive turn : Type :=
| Next (st : LoopState)              (* [continue], or the end of the body *)
| Stop (st : LoopState)              (* [break] *)
| Crash (e : exn) (st : LoopState).  (* an exception leaves [train] *)

Section Loop.
(** [self.test_dataset is not None] *)
Variable has_test_dataset : bool.
(** The mean loss that [run_epoch_(epoch, 'test')] returns. *)
Variable test_pass : Z -> fval.
(** Python's [int(str)]; [None] is its [ValueError]. *)
Variable int : string -> option Z.

(** [self.run_epoch_(epoch, 'train')], then the test pass when there is a
    test set: [test_loss] is assigned only then. *)
Definition run_epochs (st : LoopState) : stmt_end :=
  let st := emit (RunEpoch (epoch st) "train") st in
  if has_test_dataset
  then Done (set_test_loss (PyFloat (test_pass (epoch st)))
                           (emit (RunEpoch (epoch st) "test") st))
  else Done st.

(** [save_checkpoint(id)]: [os.path.join(ckpt_dir, ...)] needs a path. *)
Definition save_checkpoint (id : option Z) (st : LoopState) : stmt_end :=
  match ckpt_dir (config st) with
  | None => Throw TypeError st
  | Some _ => Done (emit (SaveCheckpoint id) st)
  end.

(** [self.test_dataset is None or test_loss is None or test_loss < best_loss],
    evaluated left to right. *)
Definition good_model (st : LoopState) : exn + bool :=
  if negb has_test_dataset then inr true
  else
    match test_loss st with
    | None => inl UnboundLocalError
    | Some PyNone => inr true
    | Some (PyFloat t) =>
        match best_loss st with
        | PyNone => inl TypeError
        | PyFloat b => inr (flt t b)
        end
    end.

(** [print(f"{epoch=} {test_loss=} {good_model=}")] reads [test_loss]. *)
Definition print_status (st : LoopState) : stmt_end :=
  match test_loss st with
  | None => Throw UnboundLocalError st
  | Some _ => Done st
  end.

(** [if self.config.ckpt_dir is not None and good_model:
       best_loss = test_loss; self.save_checkpoint()] *)
Definition keep_best (good : bool) (st : LoopState) : stmt_end :=
  match ckpt_dir (config st) with
  | None => Done st
  | Some _ =>
      if good then
        match test_loss st with
        | None => Throw UnboundLocalError st
        | Some v => save_checkpoint None (set_best_loss v st)
        end
      else Done st
  end.

(** [if samples_dir is not None and (epoch+1) % sample_every == 0:
       self.test(epoch)] *)
Definition maybe_sample (st : LoopState) : stmt_end :=
  match samples_dir (config st) with
  | None => Done st
  | Some _ =>
      if sample_every (config st) =? 0 then Throw ZeroDivisionError st
      else if (epoch st + 1) mod sample_every (config st) =? 0
           then Done (emit (Sample (epoch st)) st)
           else Done st
  end.

(** The statements from [self.save_checkpoint(epoch)] to the sampling. *)
Definition end_of_epoch (st : LoopState) : stmt_end :=
  save_checkpoint (Some (epoch st)) st >>= fun st =>
  match good_model st with
  | inl e => Throw e st
  | inr good => print_status st >>= keep_best good >>= maybe_sample
  end.

(** The block under [if epoch >= self.config.max_epochs:]. *)
Definition ask_operator (st : LoopState) : turn :=
  match stdin st with
  | [] => Crash EOFError st
  | line :: rest =>
      let st := emit (Input line) (set_stdin rest st) in
      match int line with
      | Some temp =>
          if temp >? 0 then Next (extend_max_epochs temp st)
          else Next st
      | None => Stop st
      end
  end.

(** One turn of [while True]. *)
Definition train_turn (st : LoopState) : turn :=
  match run_epochs (set_epoch (epoch st + 1) st) >>= end_of_epoch with
  | Throw e st => Crash e st
  | Done st =>
      if epoch st >=? max_epochs (config st) then ask_operator st
      else Next st
  end.

(** How [train] ends. *)
Inductive train_end : Type :=
| Finished (st : LoopState)
| Raised (e : exn) (st : LoopState)
| StillRunning (st : LoopState).   (* the turns counted by the fuel are used up *)

Fixpoint train_loop (fuel : nat) (st : LoopState) : train_end :=
  match fuel with
  | O => StillRunning st
  | S fuel' =>
      match train_turn st with
      | Next st' => train_loop fuel' st'
      | Stop st' => Finished st'
      | Crash e st' => Raised e st'
      end
  end.

(** [best_loss = float('inf'); epoch = 0]. *)
Definition initial_state (cfg : TrainerConfig) (lines : list string) : LoopState := {|
  config := cfg; epoch := 0; best_loss := PyFloat PInf;
  test_loss := None; stdin := lines; events := []
|}.

Definition train (fuel : nat) (cfg : TrainerConfig) (lines : list string) : train_end :=
  train_loop fuel (initial_state cfg lines).
End Loop.

(** An integer literal in plain ASCII, with an optional sign: the part of
    [int(str)] that the examples below need. *)
Fixpoint digits (acc : Z) (s : string) : option Z :=
  match s with
  | EmptyString => Some acc
  | String c s' =>
      let n := nat_of_ascii c in
      if ((48 <=? n) && (n <=? 57))%nat
      then digits (10 * acc + Z.of_nat (n - 48)) s'
      else None
  end.

Definition ascii_int (s : string) : option Z :=
  match s with
  | EmptyString => None
  | String "-"%char EmptyString => None
  | String "-"%char s' => option_map Z.opp (digits 0 s')
  | _ => digits 0 s
  end.

(** ** Checkpoint files *)

(** Python's [str(n)] of an [int]: decimal digits, [-] before a negative. *)
Definition str (n : Z) : string :=
  DecimalString.NilZero.string_of_int (Z.to_int n).

(** [path.endswith('/')] *)
Fixpoint endswith_sep (path : string) : bool :=
  match path with
  | EmptyString => false
  | String c EmptyString => Ascii.eqb c "/"
  | String _ rest => endswith_sep rest
  end.

(** [os.path.join(a, b)] of posixpath, for two strings. *)
Definition os_path_join (a b : string) : string :=
  if prefix "/" b then b
  else if (a =? "")%string || endswith_sep a then a ++ b
  else a ++ "/" ++ b.

(** [f'checkpoint{f"No.{id}" if id is not None else ""}.pth'] *)
Definition checkpoint_file (id : option Z) : string :=
  "checkpoint" ++ match id with Some n => "No." ++ str n | None => "" end ++ ".pth".

(** [ckpt_path] of [save_checkpoint(id)]; [os.path.join] raises on the
    default [ckpt_dir = None]. *)
Definition save_path (cfg : TrainerConfig) (id : option Z) : result string :=
  match ckpt_dir cfg with
  | None => Raise TypeError
  | Some dir => Ok (os_path_join dir (checkpoint_file id))
  end.

(** [ckpt_path] of [load_checkpoint]: [f"save/{self.config.load_name}.pth"]. *)
Definition load_path (load_name : string) : string :=
  "save/" ++ load_name ++ ".pth".

(** The [load_name] of a checkpoint written by [save_checkpoint(id)]. *)
Definition load_name_of (id : option Z) : string :=
  "checkpoint" ++ match id with Some n => "No." ++ str n | None => "" end.

(** ** Vocabulary of the statements *)

(** Number of elements that satisfy a test. *)
Definition cnt {A : Type} (p : A -> bool) (l : list A) : nat :=
  List.length (filter p l).

(** [x < c], [x <= c] and [x == c] as tests on [x]. *)
Definition below (c x : Q) : bool := negb (Qle_bool c x).
Definition upto (c x : Q) : bool := Qle_bool x c.
Definition same (c x : Q) : bool := Qeq_bool x c.

(** Sorted as [torch.sort] leaves a row. *)
Definition ascending (l : list Q) : Prop :=
  StronglySorted (fun x y => is_true (ScoreOrder.leb x y)) l.

(** Scores as [torch.rand] draws them: in [0, 1). *)
Definition in_unit (l : list Q) : Prop := Forall (fun x => (0 <= x)%Q /\ (x < 1)%Q) l.

(** No two scores of a row are equal. *)
Definition distinct_scores (l : list Q) : Prop :=
  ForallOrdPairs (fun x y => ~ (x == y)%Q) l.

(** Number of [True] entries of an indicator. *)
Definition trues (l : list bool) : nat := count_occ bool_dec l true.

(** The indicator that [mask_row] returns for the cutoff [c]. *)
Definition final_mask (sm : list bool) (filled : list Q) (c : Q) : list bool :=
  map (fun br : bool * Q => fst br && Qle_bool (snd br) c) (combine sm filled).

(** The indicator marks only maskable positions, the masked row holds
    [mask_token] exactly where the indicator is set and the input elsewhere. *)
Inductive masked_as (mask_token eos_token pad_token : Z)
  : list Z -> list Z -> list bool -> Prop :=
| masked_nil : masked_as mask_token eos_token pad_token [] [] []
| masked_cons t m b s ms bs :
    (b = true -> t <> pad_token /\ t <> eos_token) ->
    (m = mask_token <-> b = true) ->
    (b = false -> m = t) ->
    masked_as mask_token eos_token pad_token s ms bs ->
    masked_as mask_token eos_token pad_token (t :: s) (m :: ms) (b :: bs).

Inductive batch_masked_as (mask_token eos_token pad_token : Z)
  : batch -> batch -> list (list bool) -> Prop :=
| batch_masked_nil : batch_masked_as mask_token eos_token pad_token [] [] []
| batch_masked_cons s m b ss ms bs :
    masked_as mask_token eos_token pad_token s m b ->
    batch_masked_as mask_token eos_token pad_token ss ms bs ->
    batch_masked_as mask_token eos_token pad_token (s :: ss) (m :: ms) (b :: bs).

(** No input position holds [mask_token]. *)
Definition mask_free (mask_token : Z) (inputs : batch) : Prop :=
  Forall (Forall (fun t => t <> mask_token)) inputs.

(** An ordinary token is none of the three special tokens. *)
Definition ordinary (mask_token eos_token pad_token t : Z) : Prop :=
  t <> mask_token /\ t <> eos_token /\ t <> pad_token.

(** The tokens of the input are ordinary tokens, [pad_token] or [eos_token];
    [mask_token] is a token of its own. *)
Definition tokens_disjoint (mask_token eos_token pad_token : Z) (inputs : batch) : Prop :=
  mask_token <> eos_token /\ mask_token <> pad_token /\
  Forall (Forall (fun t => t = pad_token \/ t = eos_token
                           \/ ordinary mask_token eos_token pad_token t)) inputs.

(** The valid length of a sequence: the index of its first [eos_token], or
    its length when there is none. *)
Fixpoint valid_length (eos_token : Z) (s : list Z) : nat :=
  match s with
  | [] => 0
  | t :: s' => if t =? eos_token then 0 else S (valid_length eos_token s')
  end.

(** The positions that the specification has masked in a row of width
    [max_len]. *)
Definition expected_mask (eos_token : Z) (max_len : nat) (s : list Z) : list bool :=
  map (fun j => (j <? valid_length eos_token s)%nat
                && ((j mod 7 =? 1)%nat || (j mod 7 =? 2)%nat))
      (seq 0 max_len).

(** A sequence is padded as the data model has it: no [pad_token] inside the
    valid length, only [pad_token] after the position of the first
    [eos_token]. *)
Definition padded_after_eos (eos_token pad_token : Z) (s : list Z) : Prop :=
  forall j t, nth_error s j = Some t ->
    ((j < valid_length eos_token s)%nat -> t <> pad_token) /\
    ((valid_length eos_token s < j)%nat -> t = pad_token).

(** At most one position of the sequence holds [eos_token]. *)
Definition single_eos (eos_token : Z) (s : list Z) : Prop :=
  (count_occ Z.eq_dec s eos_token <= 1)%nat.

(** A generator for the examples: the scores (s + 37 n mod 101) / 101. *)
Definition example_stream (s : Z) (n : nat) : Q :=
  ((s + 37 * Z.of_nat n) mod 101) # 101.

(** [TrainerConfig(start_mask_rate=s, end_mask_rate=e)] over [cfg]. *)
Definition with_mask_rates (cfg : TrainerConfig) (s e : Q) : TrainerConfig := {|
  max_epochs := max_epochs cfg;
  learning_rate := learning_rate cfg;
  grad_norm_clip := grad_norm_clip cfg;
  lr_decay := lr_decay cfg;
  warmup_iters := warmup_iters cfg;
  final_iters := final_iters cfg;
  start_mask_rate := s;
  end_mask_rate := e;
  full_mask_rate_at := full_mask_rate_at cfg;
  ckpt_dir := ckpt_dir cfg;
  samples_dir := samples_dir cfg;
  sample_every := sample_every cfg
|}.

(** A clipping for the examples: of its effect on the values only the one
    on infinities is kept, they become NaN. *)
Definition example_clip (max_norm : Q) (model : named_parameters) : named_parameters :=
  map (fun p : string * option (list fval) =>
         (fst p, option_map (map (fun v => if isinf v then NaN else v)) (snd p)))
      model.

(** The state a turn ends in. *)
Definition turn_state (t : turn) : LoopState :=
  match t with
  | Next st | Stop st | Crash _ st => st
  end.

(** [TrainerConfig(ckpt_dir=dir)] over [cfg]. *)
Definition with_ckpt_dir (cfg : TrainerConfig) (dir : string) : TrainerConfig := {|
  max_epochs := max_epochs cfg;
  learning_rate := learning_rate cfg;
  grad_norm_clip := grad_norm_clip cfg;
  lr_decay := lr_decay cfg;
  warmup_iters := warmup_iters cfg;
  final_iters := final_iters cfg;
  start_mask_rate := start_mask_rate cfg;
  end_mask_rate := end_mask_rate cfg;
  full_mask_rate_at := full_mask_rate_at cfg;
  ckpt_dir := Some dir;
  samples_dir := samples_dir cfg;
  sample_every := sample_every cfg
|}.

(** The loss of the test pass in the examples: 1 / epoch. *)
Definition example_loss (epoch : Z) : fval := Fin (1 # Z.to_pos epoch).

(** The state a statement ends in. *)
Definition stmt_state (r : stmt_end) : LoopState :=
  match r with
  | Done st | Throw _ st => st
  end.

(** The events of [st'] continue those of [st]. *)
Definition grows (st st' : LoopState) : Prop :=
  exists tail, events st' = events st ++ tail.

(** A configuration for the examples: one epoch, checkpoints in "save". *)
Definition example_config : TrainerConfig :=
  set_max_epochs (with_ckpt_dir default_config "save") 1.

(** The geometry slice of a block: remainder 1 or 2 modulo 7. *)
Definition in_slice (j : nat) : bool := ((j mod 7 =? 1) || (j mod 7 =? 2))%nat.

(** A configuration with which the end of an epoch raises nothing: there is
    a checkpoint directory, and no sampling or a non-zero [sample_every]. *)
Definition runs_clean (cfg : TrainerConfig) : Prop :=
  ckpt_dir cfg <> None /\ (samples_dir cfg = None \/ sample_every cfg <> 0).

(** What the statements of a turn leave alone. *)
Definition same_locals (st st' : LoopState) : Prop :=
  config st' = config st /\ epoch st' = epoch st /\ stdin st' = stdin st.

(** The state [train] is in when it ends, or when the fuel is used up. *)
Definition end_state (r : train_end) : LoopState :=
  match r with
  | Finished st | Raised _ st | StillRunning st => st
  end.

(** The epochs at which [self.test] was called, in order. *)
Definition sampled (evs : list event) : list Z :=
  flat_map (fun ev => match ev with Sample e => [e] | _ => [] end) evs.

(** The epochs 1, ..., n. *)
Definition epochs_upto (n : Z) : list Z := map Z.of_nat (seq 1 (Z.to_nat n)).

(** [(epoch+1) % sample_every == 0] *)
Definition sample_due (every epoch : Z) : bool := (epoch + 1) mod every =? 0.

(** What the parts of the configuration that the sampling reads are. *)
Definition samples_every (cfg : TrainerConfig) (every : Z) : Prop :=
  ckpt_dir cfg <> None /\ samples_dir cfg <> None /\ sample_every cfg = every.

(** The example configuration with samples written to "out". *)
Definition with_samples (cfg : TrainerConfig) (every : Z) : TrainerConfig := {|
  max_epochs := max_epochs cfg;
  learning_rate := learning_rate cfg;
  grad_norm_clip := grad_norm_clip cfg;
  lr_decay := lr_decay cfg;
  warmup_iters := warmup_iters cfg;
  final_iters := final_iters cfg;
  start_mask_rate := start_mask_rate cfg;
  end_mask_rate := end_mask_rate cfg;
  full_mask_rate_at := full_mask_rate_at cfg;
  ckpt_dir := ckpt_dir cfg;
  samples_dir := Some "out"%string;
  sample_every := every
|}.




(** The binary64 numbers written 0.6, 0.2, 1.1 and 0.15. *)
Definition float_0_6 : Q := 5404319552844595 # 9007199254740992.
Definition float_0_2 : Q := 3602879701896397 # 18014398509481984.
Definition float_1_1 : Q := 2476979795053773 # 2251799813685248.
Definition float_0_15 : Q := 5404319552844595 # 36028797018963968.

(** * Properties *)

Lemma cnt_cons {A} (p : A -> bool) x l :
  cnt p (x :: l) = ((if p x then 1 else 0) + cnt p l)%nat.
Proof. unfold cnt. simpl. destruct (p x); reflexivity. Qed.

Lemma cnt_app {A} (p : A -> bool) l1 l2 :
  cnt p (l1 ++ l2) = (cnt p l1 + cnt p l2)%nat.
Proof. unfold cnt. rewrite filter_app, length_app. reflexivity. Qed.

Lemma cnt_perm {A} (p : A -> bool) l1 l2 :
  Permutation l1 l2 -> cnt p l1 = cnt p l2.
Proof.
  induction 1 as [|x l l' _ IH|x y l|l l' l'' _ IH1 _ IH2].
  - reflexivity.
  - rewrite !cnt_cons, IH. reflexivity.
  - rewrite !cnt_cons. lia.
  - congruence.
Qed.

Lemma cnt_zero {A} (p : A -> bool) l :
  Forall (fun x => p x = false) l -> cnt p l = 0%nat.
Proof.
  induction 1 as [|x l Hx _ IH]; [reflexivity|].
  rewrite cnt_cons, Hx, IH. reflexivity.
Qed.


Lemma below_iff c x : below c x = true <-> (x < c)%Q.
Proof.
  unfold below. rewrite negb_true_iff, <- not_true_iff_false, Qle_bool_iff.
  split; [apply Qnot_le_lt | apply Qlt_not_le].
Qed.

Lemma upto_iff c x : upto c x = true <-> (x <= c)%Q.
Proof. apply Qle_bool_iff. Qed.

Lemma same_iff c x : same c x = true <-> (x == c)%Q.
Proof. apply Qeq_bool_iff. Qed.

(** [x <= c] splits into [x < c] and [x == c]. *)
Lemma cnt_upto_split c l :
  cnt (upto c) l = (cnt (below c) l + cnt (same c) l)%nat.
Proof.
  induction l as [|x l IH]; [reflexivity|].
  rewrite !cnt_cons, IH.
  destruct (Qlt_le_dec x c) as [Hlt|Hge].
  - rewrite (proj2 (below_iff c x) Hlt).
    rewrite (proj2 (upto_iff c x) (Qlt_le_weak _ _ Hlt)).
    destruct (same c x) eqn:Hs; [|lia].
    apply same_iff in Hs. rewrite Hs in Hlt. exfalso. exact (Qlt_irrefl _ Hlt).
  - assert (Hb : below c x = false).
    { apply not_true_iff_false. rewrite below_iff. apply Qle_not_lt, Hge. }
    rewrite Hb.
    destruct (upto c x) eqn:Hu.
    + apply upto_iff in Hu.
      rewrite (proj2 (same_iff c x) (Qle_antisym _ _ Hu Hge)). lia.
    + assert (Hs : same c x = false).
      { apply not_true_iff_false. rewrite same_iff. intros E.
        apply not_true_iff_false in Hu. apply Hu, upto_iff. rewrite E. apply Qle_refl. }
      rewrite Hs. lia.
Qed.

Lemma leb_trans : Transitive (fun x y => is_true (ScoreOrder.leb x y)).
Proof.
  intros x y z. unfold is_true, ScoreOrder.leb. rewrite !Qle_bool_iff.
  apply Qle_trans.
Qed.

Lemma torch_sort_ascending l : ascending (torch_sort l).
Proof. apply ScoreSort.StronglySorted_sort, leb_trans. Qed.

Lemma torch_sort_perm l : Permutation l (torch_sort l).
Proof. apply ScoreSort.Permuted_sort. Qed.

Lemma torch_sort_length l : List.length (torch_sort l) = List.length l.
Proof. symmetry. apply Permutation_length, torch_sort_perm. Qed.

(** In an ascending list fewer than [k+1] elements lie strictly below the
    element at index [k]. *)
Lemma ascending_below_nth l : ascending l ->
  forall k c, nth_error l k = Some c -> (cnt (below c) l <= k)%nat.
Proof.
  induction 1 as [|x l Hs IH Hx]; intros k c Hk.
  - destruct k; discriminate.
  - rewrite cnt_cons. destruct k as [|k]; simpl in Hk.
    + injection Hk as <-.
      assert (Hb : below x x = false).
      { apply not_true_iff_false. rewrite below_iff. apply Qlt_irrefl. }
      rewrite Hb, cnt_zero; [lia|].
      rewrite Forall_forall in Hx |- *. intros y Hy.
      apply not_true_iff_false. rewrite below_iff.
      apply Qle_not_lt. apply Qle_bool_iff. exact (Hx y Hy).
    + specialize (IH k c Hk). destruct (below c x); lia.
Qed.

(** ... and at least [k+1] elements lie at or below it. *)
Lemma ascending_upto_nth l : ascending l ->
  forall k c, nth_error l k = Some c -> (k + 1 <= cnt (upto c) l)%nat.
Proof.
  induction 1 as [|x l Hs IH Hx]; intros k c Hk.
  - destruct k; discriminate.
  - rewrite cnt_cons. destruct k as [|k]; simpl in Hk.
    + injection Hk as <-.
      rewrite (proj2 (upto_iff x x) (Qle_refl x)). lia.
    + specialize (IH k c Hk).
      assert (Hu : upto c x = true).
      { rewrite Forall_forall in Hx. apply (Hx c). eapply nth_error_In, Hk. }
      rewrite Hu. lia.
Qed.


Lemma mask_lens_bounds n rate :
  0 <= n -> (0 < rate)%Q -> (rate <= 1)%Q ->
  0 <= mask_lens n rate <= n.
Proof.
  intros Hn H0 H1. unfold mask_lens. split.
  - rewrite <- (Qceiling_Z 0). apply Qceiling_resp_le.
    apply Qmult_le_0_compat; [|apply Qlt_le_weak, H0].
    rewrite Zle_Qle in Hn. exact Hn.
  - rewrite <- (Qceiling_Z n) at 2. apply Qceiling_resp_le.
    rewrite <- (Qmult_1_r (inject_Z n)) at 2.
    rewrite (Qmult_comm (inject_Z n) rate), (Qmult_comm (inject_Z n) 1).
    apply Qmult_le_compat_r; [exact H1|].
    rewrite Zle_Qle in Hn. exact Hn.
Qed.

Lemma mask_lens_zero rate : mask_lens 0 rate = 0.
Proof.
  unfold mask_lens. rewrite Qceiling_comp with (y := inject_Z 0).
  - apply Qceiling_Z.
  - apply Qmult_0_l.
Qed.

Lemma mask_lens_pos n rate :
  1 <= n -> (0 < rate)%Q -> 1 <= mask_lens n rate.
Proof.
  intros Hn H0. unfold mask_lens.
  assert (H : (0 < inject_Z n * rate)%Q).
  { apply Qmult_lt_0_compat; [|exact H0].
    change 0%Q with (inject_Z 0). rewrite <- Zlt_Qlt. lia. }
  pose proof (Qle_ceiling (inject_Z n * rate)) as Hc.
  assert (Hlt : (inject_Z 0 < inject_Z (Qceiling (inject_Z n * rate)))%Q).
  { eapply Qlt_le_trans; eassumption. }
  rewrite <- Zlt_Qlt in Hlt. lia.
Qed.

Section Row.
Variables (sm : list bool) (rnd : list Q).
Hypothesis same_length : List.length sm = List.length rnd.
Hypothesis unit_scores : in_unit rnd.

Let filled := fill_unmaskable sm rnd.



Lemma fill_nonneg : Forall (fun x => (0 <= x)%Q) filled.
Proof.
  unfold filled. clear filled. revert rnd same_length unit_scores.
  induction sm as [|b l IH]; intros [|x r] Hlen Hu; try discriminate; [constructor|].
  inversion Hu as [|? ? [Hx _] Hr]; subst.
  unfold fill_unmaskable. simpl. constructor.
  - destruct b; [exact Hx|discriminate].
  - apply IH; [simpl in Hlen; lia|exact Hr].
Qed.




Variable mask_rate : Q.
Hypothesis rate_pos : (0 < mask_rate)%Q.
Hypothesis rate_le_1 : (mask_rate <= 1)%Q.

Let k := mask_lens (lens sm) mask_rate.

Lemma target_bounds : 0 <= k <= lens sm.
Proof. apply mask_lens_bounds; [unfold lens; lia|exact rate_pos|exact rate_le_1]. Qed.



(** The clamp of 2.0 to 1.0 does not fire. *)
Lemma clamp_idle c : (c < 2)%Q -> clamp_cut_off c = c.
Proof.
  intros Hc. unfold clamp_cut_off.
  destruct (Qeq_bool c 2) eqn:E; [|reflexivity].
  apply Qeq_bool_iff in E. rewrite E in Hc. exfalso. exact (Qlt_irrefl _ Hc).
Qed.

(** The final indicator counts the filled scores at or below the cutoff. *)
Lemma final_mask_count c : (c < 2)%Q ->
  trues (map (fun br : bool * Q => fst br && Qle_bool (snd br) c) (combine sm filled))
  = cnt (upto c) filled.
Proof.
  intros Hc. unfold filled. clear filled k. revert rnd same_length unit_scores.
  induction sm as [|b l IH]; intros [|x r] Hlen Hu; try discriminate; [reflexivity|].
  inversion Hu as [|? ? _ Hr]; subst.
  unfold fill_unmaskable. simpl combine. simpl map. fold (fill_unmaskable l r).
  rewrite cnt_cons. unfold trues in *. simpl count_occ.
  rewrite (IH r); [|simpl in Hlen; lia|exact Hr].
  destruct b; simpl.
  - unfold upto. destruct (Qle_bool x c); simpl; reflexivity.
  - assert (E : upto c 2 = false).
    { apply not_true_iff_false. rewrite upto_iff. apply Qlt_not_le, Hc. }
    rewrite E. reflexivity.
Qed.

Lemma cnt_same_fill c : ~ (c == 2)%Q ->
  (cnt (same c) filled <= cnt (same c) rnd)%nat.
Proof.
  intros Hc. unfold filled. clear filled k. revert rnd same_length unit_scores.
  induction sm as [|b l IH]; intros [|x r] Hlen Hu; try discriminate; [apply Nat.le_refl|].
  inversion Hu as [|? ? _ Hr]; subst.
  unfold fill_unmaskable. simpl combine. simpl map. fold (fill_unmaskable l r).
  rewrite !cnt_cons.
  assert (IH' := IH r ltac:(simpl in Hlen; lia) Hr).
  destruct b; cbv beta iota delta [fst snd].
  - lia.
  - assert (E : same c 2 = false).
    { apply not_true_iff_false. rewrite same_iff. intros E. apply Hc. symmetry. exact E. }
    rewrite E. destruct (same c x); lia.
Qed.
End Row.

Lemma distinct_cnt_same c l : distinct_scores l -> (cnt (same c) l <= 1)%nat.
Proof.
  induction 1 as [|x l Hx _ IH]; [unfold cnt; simpl; lia|].
  rewrite cnt_cons. destruct (same c x) eqn:E; [|lia].
  rewrite cnt_zero; [lia|].
  apply same_iff in E.
  eapply Forall_impl; [|exact Hx]. intros y Hy.
  apply not_true_iff_false. rewrite same_iff. intros Ey.
  apply Hy. rewrite E, Ey. reflexivity.
Qed.

Section RowResult.
Variables (mask_token eos_token pad_token : Z) (mask_rate : Q).
Variables (s : list Z) (rnd : list Q).
Hypothesis same_length : List.length rnd = List.length s.
Hypothesis unit_scores : in_unit rnd.
Hypothesis rate_pos : (0 < mask_rate)%Q.
Hypothesis rate_le_1 : (mask_rate <= 1)%Q.

Let sm := should_mask_row eos_token pad_token s.
Let filled := fill_unmaskable sm rnd.
Let k := mask_lens (lens sm) mask_rate.

Lemma sm_length : List.length sm = List.length rnd.
Proof. unfold sm, should_mask_row. rewrite length_map. symmetry. exact same_length. Qed.


(** At least the target number of positions is masked. *)
Lemma masked_at_least c :
  nth_error (torch_sort (inserted_rand filled)) (Z.to_nat k) = Some c ->
  (-1 <= c)%Q -> (c < 2)%Q ->
  (cnt (upto c) (inserted_rand filled) = trues (final_mask sm filled c) + 1)%nat
  /\ k <= Z.of_nat (trues (final_mask sm filled c)).
Proof.
  intros Hn Hlo Hhi.
  pose proof (target_bounds sm rnd sm_length mask_rate rate_pos rate_le_1) as Hk. fold k in Hk.
  assert (E : (cnt (upto c) (inserted_rand filled)
               = trues (final_mask sm filled c) + 1)%nat).
  { unfold inserted_rand. rewrite cnt_app. unfold final_mask, filled.
    rewrite (final_mask_count sm rnd sm_length unit_scores c Hhi).
    rewrite cnt_cons.
    rewrite (proj2 (upto_iff c (-1)) Hlo). reflexivity. }
  split; [exact E|].
  pose proof (ascending_upto_nth _ (torch_sort_ascending (inserted_rand filled)) _ _ Hn) as H.
  rewrite <- (cnt_perm _ _ _ (torch_sort_perm _)) in H. lia.
Qed.

(** Without ties exactly the target number is masked. *)
Lemma masked_exactly c :
  nth_error (torch_sort (inserted_rand filled)) (Z.to_nat k) = Some c ->
  (-1 <= c)%Q -> (c < 2)%Q -> distinct_scores rnd ->
  Z.of_nat (trues (final_mask sm filled c)) = k.
Proof.
  intros Hn Hlo Hhi Hd.
  destruct (masked_at_least c Hn Hlo Hhi) as [E Hge].
  pose proof (target_bounds sm rnd sm_length mask_rate rate_pos rate_le_1) as Hk. fold k in Hk.
  pose proof (ascending_below_nth _ (torch_sort_ascending (inserted_rand filled)) _ _ Hn) as Hb.
  rewrite <- (cnt_perm _ _ _ (torch_sort_perm _)) in Hb.
  assert (Hs : (cnt (same c) (inserted_rand filled) <= 1)%nat).
  { unfold inserted_rand. rewrite cnt_app, cnt_cons.
    destruct (same c (-1)) eqn:Em.
    - apply same_iff in Em.
      rewrite cnt_zero; [unfold cnt; simpl; lia|].
      eapply Forall_impl; [|exact (fill_nonneg sm rnd sm_length unit_scores)].
      intros y Hy. apply not_true_iff_false. rewrite same_iff. intros Ey.
      assert (H0 : (0 <= -1)%Q) by (rewrite Em, <- Ey; exact Hy).
      exfalso. apply H0. reflexivity.
    - assert (Hne : ~ (c == 2)%Q).
      { intros E2. rewrite E2 in Hhi. exact (Qlt_irrefl _ Hhi). }
      pose proof (cnt_same_fill sm rnd sm_length unit_scores c Hne) as H1.
      pose proof (distinct_cnt_same c rnd Hd) as H2.
      fold filled in H1. unfold cnt at 2. simpl. lia. }
  rewrite cnt_upto_split in E. lia.
Qed.
End RowResult.

(** ** The rows that [mask_row] returns *)

Lemma maskable_true eos_token pad_token t :
  maskable eos_token pad_token t = true -> t <> pad_token /\ t <> eos_token.
Proof.
  unfold maskable. rewrite andb_true_iff, !negb_true_iff, !Z.eqb_neq. tauto.
Qed.

(** The elementwise part of [mask_row], for any cutoff. *)
Lemma mask_row_shape mask_token eos_token pad_token c s :
  Forall (fun t => t <> mask_token) s ->
  forall rnd, List.length rnd = List.length s ->
  let sm := should_mask_row eos_token pad_token s in
  let mask := final_mask sm (fill_unmaskable sm rnd) c in
  masked_as mask_token eos_token pad_token s
    (map (fun bt : bool * Z => if fst bt then mask_token else snd bt) (combine mask s))
    mask.
Proof.
  induction 1 as [|t s Ht _ IH]; intros [|x rnd] Hlen; try discriminate;
    [constructor|].
  simpl. unfold final_mask, fill_unmaskable. simpl.
  constructor.
  - intros Hb. apply andb_true_iff in Hb. apply maskable_true, Hb.
  - destruct (maskable eos_token pad_token t && _); simpl; split;
      congruence.
  - intros Hb. rewrite Hb. reflexivity.
  - apply IH. simpl in Hlen. lia.
Qed.

Lemma tokens_disjoint_mask_free mask_token eos_token pad_token inputs :
  tokens_disjoint mask_token eos_token pad_token inputs -> mask_free mask_token inputs.
Proof.
  intros (He & Hp & H). unfold mask_free.
  eapply Forall_impl; [|exact H]. intros s Hs.
  eapply Forall_impl; [|exact Hs]. intros t [->|[->|[Ht _]]]; congruence.
Qed.

Lemma mask_row_masked_as mask_token eos_token pad_token mask_rate s rnd m b :
  Forall (fun t => t <> mask_token) s -> List.length rnd = List.length s ->
  mask_row mask_token eos_token pad_token mask_rate s rnd = Ok (m, b) ->
  masked_as mask_token eos_token pad_token s m b.
Proof.
  intros Hs Hlen. unfold mask_row. cbv zeta.
  destruct (row_cut_off _ _ _) as [c|e]; simpl; [|discriminate].
  intros H. injection H as <- <-.
  apply (mask_row_shape mask_token eos_token pad_token (clamp_cut_off c) s Hs rnd Hlen).
Qed.

Lemma mask_rows_masked_as mask_token eos_token pad_token mask_rate inputs :
  mask_free mask_token inputs ->
  forall rand masked mask,
    Forall2 (fun s r => List.length r = List.length s) inputs rand ->
    mask_rows mask_token eos_token pad_token mask_rate inputs rand = Ok (masked, mask) ->
    batch_masked_as mask_token eos_token pad_token inputs masked mask.
Proof.
  induction 1 as [|s inputs Hs _ IH]; intros rand masked mask Hr.
  - inversion Hr; subst. simpl. intros H. injection H as <- <-. constructor.
  - inversion Hr as [|? r ? rand' Hlen Hr']; subst. simpl.
    destruct (mask_row _ _ _ _ s r) as [[m b]|e] eqn:Erow; simpl; [|discriminate].
    destruct (mask_rows _ _ _ _ inputs rand') as [[ms bs]|e] eqn:Erest; simpl; [|discriminate].
    intros H. injection H as <- <-. constructor.
    + eapply mask_row_masked_as; eassumption.
    + eapply IH; eassumption.
Qed.

(** Row by row, [mask_rows] is [mask_row]. *)
Lemma mask_rows_nth mask_token eos_token pad_token mask_rate inputs :
  forall rand masked mask,
    mask_rows mask_token eos_token pad_token mask_rate inputs rand = Ok (masked, mask) ->
    forall i s r, nth_error inputs i = Some s -> nth_error rand i = Some r ->
      exists m b, nth_error masked i = Some m /\ nth_error mask i = Some b
                  /\ mask_row mask_token eos_token pad_token mask_rate s r = Ok (m, b).
Proof.
  induction inputs as [|s0 inputs IH]; intros rand masked mask H i s r Hi Hr.
  - destruct i; discriminate.
  - destruct rand as [|r0 rand]; [destruct i; discriminate|]. simpl in H.
    destruct (mask_row _ _ _ _ s0 r0) as [[m0 b0]|e] eqn:Erow; simpl in H; [|discriminate].
    destruct (mask_rows _ _ _ _ inputs rand) as [[ms bs]|e] eqn:Erest; simpl in H; [|discriminate].
    injection H as <- <-.
    destruct i as [|i]; simpl in Hi, Hr.
    + injection Hi as <-. injection Hr as <-. exists m0, b0. auto.
    + apply (IH rand ms bs Erest i s r Hi Hr).
Qed.

Lemma mask_rows_length mask_token eos_token pad_token mask_rate inputs :
  forall rand masked mask,
    List.length rand = List.length inputs ->
    mask_rows mask_token eos_token pad_token mask_rate inputs rand = Ok (masked, mask) ->
    List.length masked = List.length inputs /\ List.length mask = List.length inputs.
Proof.
  induction inputs as [|s0 inputs IH]; intros rand masked mask Hlen H.
  - simpl in H. injection H as <- <-. auto.
  - destruct rand as [|r0 rand]; [discriminate|]. simpl in H.
    destruct (mask_row _ _ _ _ s0 r0) as [[m0 b0]|e]; simpl in H; [|discriminate].
    destruct (mask_rows _ _ _ _ inputs rand) as [[ms bs]|e] eqn:Erest; simpl in H; [|discriminate].
    injection H as <- <-. simpl in Hlen.
    destruct (IH rand ms bs ltac:(lia) Erest). simpl. lia.
Qed.


(** *** The tensor that [torch.rand] returns *)

Lemma Forall2_map_seq {A B : Type} (P : A -> B -> Prop) (f : nat -> B) (l : list A) :
  forall n,
    (forall i a, nth_error l i = Some a -> P a (f (n + i)%nat)) ->
    Forall2 P l (map f (seq n (List.length l))).
Proof.
  induction l as [|a l IH]; intros n H; simpl; constructor.
  - rewrite <- (Nat.add_0_r n). apply H. reflexivity.
  - apply IH. intros i a' Hi. rewrite Nat.add_succ_comm. apply H. exact Hi.
Qed.

Lemma rectangular_shape1 L inputs s :
  rectangular L inputs -> In s inputs -> shape1 inputs = L /\ List.length s = L.
Proof.
  intros Hr Hin. unfold rectangular in Hr. rewrite Forall_forall in Hr. split.
  - destruct inputs as [|s0 inputs]; [contradiction|]. simpl. apply Hr. left. reflexivity.
  - apply Hr, Hin.
Qed.

Lemma torch_rand_rows_length stream L inputs g :
  rectangular L inputs ->
  Forall2 (fun s r => List.length r = List.length s) inputs
          (fst (torch_rand stream (List.length inputs) (shape1 inputs) g)).
Proof.
  intros Hr. unfold torch_rand. simpl fst.
  apply Forall2_map_seq. intros i s Hi.
  apply nth_error_In in Hi. destruct (rectangular_shape1 L inputs s Hr Hi) as [-> ->].
  rewrite length_map, length_seq. reflexivity.
Qed.

Section Draw.
Variable stream : Z -> nat -> Q.
Hypothesis stream_unit : forall s n, (0 <= stream s n)%Q /\ (stream s n < 1)%Q.



Lemma torch_rand_rows L inputs g :
  rectangular L inputs ->
  Forall2 (fun s r => List.length r = List.length s /\ in_unit r) inputs
          (fst (torch_rand stream (List.length inputs) (shape1 inputs) g)).
Proof.
  intros Hr. unfold torch_rand. simpl fst.
  apply Forall2_map_seq. intros i s Hi.
  apply nth_error_In in Hi. destruct (rectangular_shape1 L inputs s Hr Hi) as [-> ->].
  split.
  - rewrite length_map, length_seq. reflexivity.
  - unfold in_unit. rewrite Forall_forall. intros x Hx.
    apply in_map_iff in Hx. destruct Hx as (j & <- & _). apply stream_unit.
Qed.
End Draw.

Lemma BLT_masking_unfold stream inputs mask_token eos_token pad_token mask_rate training g :
  BLT_masking stream inputs mask_token eos_token pad_token mask_rate training g
  = let g0 := if training then g else manual_seed 0 g in
    match mask_rows mask_token eos_token pad_token mask_rate inputs
                    (drawn_scores stream inputs training g) with
    | Raise e => (Raise e, snd (torch_rand stream (List.length inputs) (shape1 inputs) g0))
    | Ok r => (Ok r, if training
                     then snd (torch_rand stream (List.length inputs) (shape1 inputs) g0)
                     else manual_seed (initial_seed g)
                            (snd (torch_rand stream (List.length inputs) (shape1 inputs) g0)))
    end.
Proof. reflexivity. Qed.

Section ListUpdate.
Context {A : Type}.

Lemma set_at_length (l : list A) j v : List.length (set_at l j v) = List.length l.
Proof.
  revert j. induction l as [|x l IH]; intros [|j]; simpl; try reflexivity.
  rewrite IH. reflexivity.
Qed.

Lemma set_at_nth (l : list A) j v i :
  nth_error (set_at l j v) i
  = match nth_error l i with
    | Some x => Some (if (i =? j)%nat then v else x)
    | None => None
    end.
Proof.
  revert j i. induction l as [|x l IH]; intros j i.
  - destruct j, i; reflexivity.
  - destruct j as [|j], i as [|i]; simpl; try reflexivity.
    + destruct (nth_error l i); reflexivity.
    + apply IH.
Qed.

Lemma index_put_length idx : forall (l : list A) v,
  List.length (index_put l idx v) = List.length l.
Proof.
  unfold index_put. induction idx as [|j idx IH]; intros l v; simpl; [reflexivity|].
  rewrite IH, set_at_length. reflexivity.
Qed.

Lemma index_put_nth idx : forall (l : list A) v i,
  nth_error (index_put l idx v) i
  = match nth_error l i with
    | Some x => Some (if existsb (Nat.eqb i) idx then v else x)
    | None => None
    end.
Proof.
  unfold index_put. induction idx as [|j idx IH]; intros l v i; simpl.
  - destruct (nth_error l i); reflexivity.
  - rewrite IH, set_at_nth. destruct (nth_error l i); [|reflexivity].
    destruct (i =? j)%nat; simpl; [|reflexivity].
    destruct (existsb (Nat.eqb i) idx); reflexivity.
Qed.

Lemma repeat_nth (a : A) m i :
  nth_error (repeat a m) i = if (i <? m)%nat then Some a else None.
Proof.
  destruct (Nat.ltb_spec i m) as [H|H].
  - apply nth_error_repeat, H.
  - apply nth_error_None. rewrite repeat_length. exact H.
Qed.

Lemma assign_prefix_nth (dst src : list A) i :
  (List.length src <= List.length dst)%nat ->
  nth_error (assign_prefix dst src) i
  = if (i <? List.length src)%nat then nth_error src i else nth_error dst i.
Proof.
  intros Hlen. unfold assign_prefix. rewrite nth_error_app.
  destruct (i <? List.length src)%nat eqn:E; [reflexivity|].
  apply Nat.ltb_ge in E. rewrite nth_error_skipn. f_equal. lia.
Qed.

Lemma assign_prefix_length (dst src : list A) :
  (List.length src <= List.length dst)%nat ->
  List.length (assign_prefix dst src) = List.length dst.
Proof.
  intros Hlen. unfold assign_prefix. rewrite length_app, length_skipn. lia.
Qed.
End ListUpdate.

Lemma isin_1_2_spec r : isin_1_2 r = ((r =? 1)%nat || (r =? 2)%nat).
Proof.
  unfold isin_1_2. simpl. rewrite orb_false_r. reflexivity.
Qed.

(** Both parity branches select the same indices. *)
Lemma mask_indices_parity i i' n : mask_indices i n = mask_indices i' n.
Proof.
  unfold mask_indices. destruct (i mod 2 =? 0)%nat, (i' mod 2 =? 0)%nat; reflexivity.
Qed.

Lemma existsb_eqb_In i l : existsb (Nat.eqb i) l = true <-> In i l.
Proof.
  rewrite existsb_exists. split.
  - intros (x & Hx & E). apply Nat.eqb_eq in E. subst. exact Hx.
  - intros H. exists i. split; [exact H|apply Nat.eqb_refl].
Qed.

Lemma mask_indices_mem i n j :
  existsb (Nat.eqb j) (mask_indices i n)
  = ((j <? n)%nat && ((j mod 7 =? 1)%nat || (j mod 7 =? 2)%nat)).
Proof.
  rewrite (mask_indices_parity i 0 n). unfold mask_indices. simpl (0 mod 2 =? 0)%nat.
  cbv iota. apply eq_true_iff_eq.
  rewrite existsb_eqb_In, filter_In, in_seq, isin_1_2_spec, andb_true_iff, Nat.ltb_lt.
  intuition lia.
Qed.

(** *** The valid length and [eos_index] *)

Lemma nonzero_from_length eos_token s : forall j,
  List.length (nonzero_from eos_token j s) = count_occ Z.eq_dec s eos_token.
Proof.
  induction s as [|t s IH]; intros j; simpl; [reflexivity|].
  destruct (Z.eqb_spec t eos_token) as [E|E]; destruct (Z.eq_dec t eos_token);
    try contradiction; simpl; rewrite IH; reflexivity.
Qed.

Lemma nonzero_from_head eos_token s : forall j,
  match nonzero_from eos_token j s with
  | [] => valid_length eos_token s = List.length s
  | p :: _ => p = (j + valid_length eos_token s)%nat
  end.
Proof.
  induction s as [|t s IH]; intros j; simpl; [reflexivity|].
  destruct (t =? eos_token).
  - lia.
  - specialize (IH (S j)). destruct (nonzero_from eos_token (S j) s); lia.
Qed.

Lemma eos_index_valid eos_token s p :
  eos_index eos_token s = Ok p -> p = valid_length eos_token s.
Proof.
  unfold eos_index. pose proof (nonzero_from_head eos_token s 0%nat) as H.
  destruct (nonzero_from eos_token 0 s) as [|q [|q' l]]; intros E;
    try discriminate; injection E as <-; simpl in H; congruence.
Qed.

Lemma eos_index_single eos_token s :
  single_eos eos_token s -> eos_index eos_token s = Ok (valid_length eos_token s).
Proof.
  unfold single_eos, eos_index. rewrite <- (nonzero_from_length eos_token s 0%nat).
  pose proof (nonzero_from_head eos_token s 0%nat) as H.
  destruct (nonzero_from eos_token 0 s) as [|q [|q' l]]; simpl; intros Hc.
  - congruence.
  - simpl in H. congruence.
  - lia.
Qed.

Lemma eos_index_several eos_token s :
  ~ single_eos eos_token s -> eos_index eos_token s = Raise RuntimeError.
Proof.
  unfold single_eos, eos_index. rewrite <- (nonzero_from_length eos_token s 0%nat).
  destruct (nonzero_from eos_token 0 s) as [|q [|q' l]]; simpl; intros Hc;
    [exfalso; apply Hc; lia ..|reflexivity].
Qed.

Lemma valid_length_le eos_token s : (valid_length eos_token s <= List.length s)%nat.
Proof.
  induction s as [|t s IH]; simpl; [lia|]. destruct (t =? eos_token); simpl; lia.
Qed.

Lemma valid_length_before eos_token s : forall j t,
  nth_error s j = Some t -> (j < valid_length eos_token s)%nat -> t <> eos_token.
Proof.
  induction s as [|x s IH]; intros j t Hj Hlt; [destruct j; discriminate|].
  simpl in Hlt. destruct (Z.eqb_spec x eos_token) as [E|E]; [lia|].
  destruct j as [|j]; simpl in Hj.
  - congruence.
  - apply (IH j t Hj). lia.
Qed.

(** *** The row that [test_mask_row] builds *)

Lemma test_mask_row_mask mask_token eos_token pad_token max_len i s m b :
  test_mask_row mask_token eos_token pad_token max_len i s = Ok (m, b) ->
  b = expected_mask eos_token max_len s.
Proof.
  unfold test_mask_row. destruct (eos_index eos_token s) as [p|e] eqn:E; simpl;
    [|discriminate].
  apply eos_index_valid in E. subst p. intros H. injection H as _ <-.
  apply nth_error_ext. intros j.
  rewrite index_put_nth, repeat_nth, mask_indices_mem.
  unfold expected_mask. rewrite nth_error_map, nth_error_seq.
  destruct (j <? max_len)%nat; cbn [option_map]; [|reflexivity].
  rewrite Nat.add_0_l. destruct (_ && _); reflexivity.
Qed.

Lemma test_mask_row_masked mask_token eos_token pad_token max_len i s m b :
  List.length s = max_len ->
  test_mask_row mask_token eos_token pad_token max_len i s = Ok (m, b) ->
  forall j t, nth_error s j = Some t ->
    nth_error m j
    = Some (if (j <? valid_length eos_token s)%nat
               && ((j mod 7 =? 1)%nat || (j mod 7 =? 2)%nat)
            then mask_token
            else if (j <? valid_length eos_token s + 1)%nat then t else pad_token).
Proof.
  intros Hlen. unfold test_mask_row.
  destruct (eos_index eos_token s) as [p|e] eqn:E; simpl; [|discriminate].
  apply eos_index_valid in E. subst p. intros H. injection H as <- _.
  intros j t Hj.
  assert (Hj' : (j < max_len)%nat).
  { rewrite <- Hlen. apply nth_error_Some. congruence. }
  pose proof (valid_length_le eos_token s) as Hv.
  rewrite index_put_nth, mask_indices_mem, assign_prefix_nth
    by (rewrite length_firstn, repeat_length; lia).
  rewrite length_firstn, nth_error_firstn, repeat_nth.
  apply Nat.ltb_lt in Hj'. rewrite Hj'. apply Nat.ltb_lt in Hj'.
  destruct (j <? valid_length eos_token s + 1)%nat eqn:E1.
  - apply Nat.ltb_lt in E1.
    assert (E2 : (j <? Nat.min (valid_length eos_token s + 1) (List.length s))%nat = true)
      by (apply Nat.ltb_lt; lia).
    rewrite E2, Hj. reflexivity.
  - apply Nat.ltb_ge in E1.
    assert (E2 : (j <? Nat.min (valid_length eos_token s + 1) (List.length s))%nat = false)
      by (apply Nat.ltb_ge; lia).
    rewrite E2. reflexivity.
Qed.

Lemma test_mask_row_lengths mask_token eos_token pad_token max_len i s m b :
  List.length s = max_len ->
  test_mask_row mask_token eos_token pad_token max_len i s = Ok (m, b) ->
  List.length m = max_len /\ List.length b = max_len.
Proof.
  intros Hlen. unfold test_mask_row.
  destruct (eos_index eos_token s) as [p|e] eqn:E; simpl; [|discriminate].
  intros H. injection H as <- <-.
  rewrite !index_put_length, repeat_length, assign_prefix_length, repeat_length.
  - auto.
  - rewrite length_firstn, repeat_length. lia.
Qed.

Lemma masked_as_pointwise mask_token eos_token pad_token s : forall ms bs,
  List.length ms = List.length s -> List.length bs = List.length s ->
  (forall j t, nth_error s j = Some t ->
     exists m b, nth_error ms j = Some m /\ nth_error bs j = Some b
                 /\ (b = true -> t <> pad_token /\ t <> eos_token)
                 /\ (m = mask_token <-> b = true)
                 /\ (b = false -> m = t)) ->
  masked_as mask_token eos_token pad_token s ms bs.
Proof.
  induction s as [|t s IH]; intros [|m ms] [|b bs] Hm Hb H; try discriminate;
    [constructor|].
  destruct (H 0%nat t eq_refl) as (m' & b' & Em & Eb & H1 & H2 & H3).
  simpl in Em, Eb. injection Em as <-. injection Eb as <-.
  constructor; try assumption.
  apply IH; [simpl in Hm; lia|simpl in Hb; lia|].
  intros j t' Hj. apply (H (S j) t' Hj).
Qed.

Lemma test_mask_row_masked_as mask_token eos_token pad_token max_len i s m b :
  mask_token <> pad_token ->
  Forall (fun t => t <> mask_token) s ->
  padded_after_eos eos_token pad_token s ->
  List.length s = max_len ->
  test_mask_row mask_token eos_token pad_token max_len i s = Ok (m, b) ->
  masked_as mask_token eos_token pad_token s m b.
Proof.
  intros Hmp Hfree Hpad Hlen Hrow.
  destruct (test_mask_row_lengths _ _ _ _ _ _ _ _ Hlen Hrow) as [Lm Lb].
  pose proof (test_mask_row_mask _ _ _ _ _ _ _ _ Hrow) as Eb.
  pose proof (test_mask_row_masked _ _ _ _ _ _ _ _ Hlen Hrow) as Em.
  apply masked_as_pointwise; [congruence|congruence|].
  intros j t Hj. rewrite (Em j t Hj).
  assert (Hj' : (j < max_len)%nat).
  { rewrite <- Hlen. apply nth_error_Some. congruence. }
  assert (Ht : t <> mask_token).
  { rewrite Forall_forall in Hfree. apply Hfree. eapply nth_error_In, Hj. }
  destruct (Hpad j t Hj) as [Hin Hout].
  eexists. exists ((j <? valid_length eos_token s)%nat
                   && ((j mod 7 =? 1)%nat || (j mod 7 =? 2)%nat)).
  split; [reflexivity|]. split.
  { subst b. unfold expected_mask. rewrite nth_error_map, nth_error_seq.
    apply Nat.ltb_lt in Hj'. rewrite Hj'. reflexivity. }
  destruct (Nat.ltb_spec j (valid_length eos_token s)) as [Hlt|Hge];
    destruct (_ || _); cbn [andb];
    destruct (Nat.ltb_spec j (valid_length eos_token s + 1)) as [H1|H1];
    try lia; repeat split; intros; try congruence;
    first [ apply Hin, Hlt
          | eapply valid_length_before; eassumption
          | symmetry; apply Hout; lia ].
Qed.

Lemma test_mask_rows_mask mask_token eos_token pad_token max_len inputs :
  forall i masked mask,
    test_mask_rows mask_token eos_token pad_token max_len i inputs = Ok (masked, mask) ->
    mask = map (expected_mask eos_token max_len) inputs.
Proof.
  induction inputs as [|s inputs IH]; intros i masked mask; simpl.
  - intros H. injection H as _ <-. reflexivity.
  - destruct (test_mask_row _ _ _ _ i s) as [[m b]|e] eqn:Erow; simpl; [|discriminate].
    destruct (test_mask_rows _ _ _ _ (S i) inputs) as [[ms bs]|e] eqn:Erest; simpl;
      [|discriminate].
    intros H. injection H as _ <-. simpl. f_equal.
    + eapply test_mask_row_mask, Erow.
    + eapply IH, Erest.
Qed.

Lemma test_mask_rows_total mask_token eos_token pad_token max_len inputs :
  Forall (single_eos eos_token) inputs ->
  forall i, exists res,
    test_mask_rows mask_token eos_token pad_token max_len i inputs = Ok res.
Proof.
  induction 1 as [|s inputs Hs _ IH]; intros i; simpl; [eauto|].
  unfold test_mask_row at 1. rewrite (eos_index_single _ _ Hs). simpl.
  destruct (IH (S i)) as [rest ->]. simpl. eauto.
Qed.

Lemma test_mask_rows_masked_as mask_token eos_token pad_token max_len inputs :
  mask_token <> pad_token ->
  mask_free mask_token inputs ->
  Forall (padded_after_eos eos_token pad_token) inputs ->
  rectangular max_len inputs ->
  forall i masked mask,
    test_mask_rows mask_token eos_token pad_token max_len i inputs = Ok (masked, mask) ->
    batch_masked_as mask_token eos_token pad_token inputs masked mask.
Proof.
  intros Hmp Hfree. induction Hfree as [|s inputs Hs _ IH];
    intros Hpad Hrect i masked mask; simpl.
  - intros H. injection H as <- <-. constructor.
  - inversion Hpad; subst. inversion Hrect; subst.
    destruct (test_mask_row _ _ _ _ i s) as [[m b]|e] eqn:Erow; simpl; [|discriminate].
    destruct (test_mask_rows _ _ _ _ (S i) inputs) as [[ms bs]|e] eqn:Erest; simpl;
      [|discriminate].
    intros H. injection H as <- <-. constructor.
    + eapply test_mask_row_masked_as; eauto.
    + eapply IH; eauto.
Qed.

Lemma max_len_rectangular L s inputs :
  rectangular L (s :: inputs) ->
  fold_right Nat.max 0%nat (map (@List.length Z) (s :: inputs)) = L.
Proof.
  intros H. inversion H as [|? ? Hs Hr]; subst. simpl. clear H.
  induction Hr as [|s' inputs Hs' _ IH]; simpl; [lia|]. simpl in IH. lia.
Qed.

Lemma example_stream_unit s n :
  (0 <= example_stream s n)%Q /\ (example_stream s n < 1)%Q.
Proof.
  unfold example_stream, Qle, Qlt. cbn [Qnum Qden].
  pose proof (Z.mod_pos_bound (s + 37 * Z.of_nat n) 101 ltac:(lia)). lia.
Qed.

(** C1, amended.  On a batch whose tokens are ordinary tokens, [pad_token]
    or [eos_token], the ordinary ones being none of the three special tokens:
    whenever [BLT_masking] returns (training or not, at any rate, from any
    generator), its indicator is set only where the input holds neither
    [pad_token] nor [eos_token], and the masked batch holds [mask_token]
    exactly where the indicator is set and the input everywhere else.
    [test_masking] returns the same on the batches whose rows are padded as
    the data model has them: no [pad_token] within the valid length, only
    [pad_token] after the first [eos_token]. *)
Theorem masking_marks_maskable_only stream inputs L mask_token eos_token pad_token :
  rectangular L inputs ->
  tokens_disjoint mask_token eos_token pad_token inputs ->
  (forall mask_rate training g masked mask g',
      BLT_masking stream inputs mask_token eos_token pad_token mask_rate training g
      = (Ok (masked, mask), g') ->
      batch_masked_as mask_token eos_token pad_token inputs masked mask)
  /\ (Forall (padded_after_eos eos_token pad_token) inputs ->
      forall masked mask,
        test_masking inputs mask_token eos_token pad_token = Ok (masked, mask) ->
        batch_masked_as mask_token eos_token pad_token inputs masked mask).
Proof.
  intros Hrect Hdis.
  pose proof (tokens_disjoint_mask_free _ _ _ _ Hdis) as Hfree.
  destruct Hdis as (_ & Hmp & _). split.
  - intros mask_rate training g masked mask g'. rewrite BLT_masking_unfold. cbv zeta.
    destruct (mask_rows _ _ _ _ inputs _) as [[ms bs]|e] eqn:E; [|discriminate].
    intros H. injection H as <- <- _.
    eapply mask_rows_masked_as; [exact Hfree| |exact E].
    unfold drawn_scores.
    apply (torch_rand_rows_length stream L inputs _ Hrect).
  - intros Hpad masked mask. unfold test_masking.
    destruct inputs as [|s inputs]; [discriminate|].
    rewrite (max_len_rectangular L s inputs Hrect).
    apply test_mask_rows_masked_as; assumption.
Qed.

Lemma masking_marks_maskable_only_witness :
  batch_masked_as 102 100 101 [[5; 6; 7; 100; 101]]
                  [[5; 6; 102; 100; 101]] [[false; false; true; false; false]]
  /\ batch_masked_as 102 100 101 [[5; 6; 7; 100; 101]]
                     [[5; 102; 102; 100; 101]] [[false; true; true; false; false]].
Proof.
  assert (Hrect : rectangular 5 [[5; 6; 7; 100; 101]]) by (repeat constructor).
  assert (Hdis : tokens_disjoint 102 100 101 [[5; 6; 7; 100; 101]]).
  { unfold tokens_disjoint, ordinary. repeat split; try discriminate.
    repeat constructor; lia. }
  assert (Hpad : Forall (padded_after_eos 100 101) [[5; 6; 7; 100; 101]]).
  { constructor; [|constructor].
    intros j t H.
    do 5 (destruct j as [|j];
          [injection H as <-; simpl; split; intros; lia|]).
    destruct j; discriminate. }
  destruct (masking_marks_maskable_only example_stream [[5; 6; 7; 100; 101]] 5
              102 100 101 Hrect Hdis) as [Hblt Htest].
  split.
  - apply (Hblt (1 # 3) true {| seed := 3; offset := 4 |} _ _
                {| seed := 3; offset := 9 |}).
    vm_compute. reflexivity.
  - apply (Htest Hpad). vm_compute. reflexivity.
Defined.

(** C1, as stated, fails for [test_masking]: on a row without [eos_token]
    that is padded, position 2 holds [pad_token] and is masked. *)
Lemma test_masking_masks_padding :
  rectangular 4 [[5; 6; 101; 101]]
  /\ tokens_disjoint 102 100 101 [[5; 6; 101; 101]]
  /\ test_masking [[5; 6; 101; 101]] 102 100 101
     = Ok ([[5; 102; 102; 101]], [[false; true; true; false]])
  /\ ~ batch_masked_as 102 100 101 [[5; 6; 101; 101]]
                       [[5; 102; 102; 101]] [[false; true; true; false]].
Proof.
  split; [repeat constructor|]. split.
  { unfold tokens_disjoint, ordinary. repeat split; try discriminate.
    repeat constructor; lia. }
  split; [reflexivity|].
  intros H.
  inversion H as [|? ? ? ? ? ? Hrow Hrest]; subst.
  inversion Hrow as [|? ? ? ? ? ? A0 B0 C0 H1]; subst.
  inversion H1 as [|? ? ? ? ? ? A1 B1 C1 H2]; subst.
  inversion H2 as [|? ? ? ? ? ? Hpad B2 C2 H3]; subst.
  destruct (Hpad eq_refl) as [Hp _]. apply Hp. reflexivity.
Qed.


Section Stochastic.
Variable stream : Z -> nat -> Q.
Hypothesis stream_unit : forall s n, (0 <= stream s n)%Q /\ (stream s n < 1)%Q.
Variables (inputs : batch) (L : nat).
Hypothesis rect : rectangular L inputs.
Variables (mask_token eos_token pad_token : Z) (mask_rate : Q).
Hypothesis rate_pos : (0 < mask_rate)%Q.
Hypothesis rate_le_1 : (mask_rate <= 1)%Q.
Variables (training : bool) (g : Generator).


End Stochastic.


(** ** float32 *)














(** What the rounding does to round products: 25 * 0.6, 5 * 0.2, 10 * 1.1
    and 100 * 0.15 in float32, beside the ceilings of the exact products of
    the binary64 rates. *)
Example float32_mask_lens_rounds :
  (float32_mask_lens 25 float_0_6 = 16 /\ mask_lens 25 float_0_6 = 15)
  /\ (float32_mask_lens 5 float_0_2 = 1 /\ mask_lens 5 float_0_2 = 2)
  /\ (float32_mask_lens 10 float_1_1 = 11 /\ mask_lens 10 float_1_1 = 12)
  /\ (float32_mask_lens 100 float_0_15 = 16 /\ mask_lens 100 float_0_15 = 15).
Proof. vm_compute. repeat split. Qed.







(** ** The cutoff gathered at any index *)

Section RowAt.
Variables (sm : list bool) (rnd : list Q).
Hypothesis same_length : List.length sm = List.length rnd.
Hypothesis unit_scores : in_unit rnd.
Variable k : Z.
Hypothesis k_bounds : 0 <= k <= lens sm.

Let filled := fill_unmaskable sm rnd.



End RowAt.




(** C8, amended.  On a batch that is not empty and in which every sequence
    holds [eos_token] at most once, [test_masking] returns and its indicator
    is set exactly at the indices below the valid length whose remainder
    modulo 7 is 1 or 2.  The indices chosen are the same for even and odd row
    indices; no mask rate is an argument of the function. *)
Theorem test_masking_pattern inputs L mask_token eos_token pad_token :
  inputs <> [] -> rectangular L inputs -> Forall (single_eos eos_token) inputs ->
  (exists masked,
      test_masking inputs mask_token eos_token pad_token
      = Ok (masked, map (expected_mask eos_token L) inputs))
  /\ (forall i i' seq_len, mask_indices i seq_len = mask_indices i' seq_len).
Proof.
  intros Hne Hrect Hsingle. split; [|apply mask_indices_parity].
  destruct inputs as [|s inputs]; [congruence|].
  unfold test_masking. rewrite (max_len_rectangular L s inputs Hrect).
  destruct (test_mask_rows_total mask_token eos_token pad_token L (s :: inputs)
              Hsingle 0%nat) as [[masked mask] H].
  exists masked. rewrite H. f_equal. f_equal.
  eapply test_mask_rows_mask, H.
Qed.

Lemma test_masking_pattern_witness :
  exists masked,
    test_masking [[5; 1; 2; 3; 6; 7; 8; 9; 10; 100; 101]; [5; 1; 2; 3; 6; 7; 8; 100; 101; 101; 101]]
                 102 100 101
    = Ok (masked,
          [[false; true; true; false; false; false; false; false; true; false; false];
           [false; true; true; false; false; false; false; false; false; false; false]]).
Proof.
  refine (proj1 (test_masking_pattern
            [[5; 1; 2; 3; 6; 7; 8; 9; 10; 100; 101]; [5; 1; 2; 3; 6; 7; 8; 100; 101; 101; 101]]
            11 102 100 101 _ _ _)).
  - discriminate.
  - repeat constructor.
  - repeat constructor; unfold single_eos; simpl; lia.
Defined.

(** C8, as stated, fails on a sequence with two [eos_token]: [.item()]
    raises and nothing is masked. *)
Lemma test_masking_second_eos_raises :
  test_masking [[5; 100; 100]] 102 100 101 = Raise RuntimeError
  /\ valid_length 100 [5; 100; 100] = 1%nat
  /\ ~ exists masked,
        test_masking [[5; 100; 100]] 102 100 101
        = Ok (masked, map (expected_mask 100 3) [[5; 100; 100]]).
Proof.
  split; [reflexivity|]. split; [reflexivity|].
  intros [masked H]. discriminate H.
Qed.




(** ** The generator after a non-training call *)

(** After a non-training call that returns, the generator has been seeded
    anew with the seed it had: it is at the start of its stream, wherever
    it was before; after one that raises, it is left seeded with 0. *)
Lemma BLT_masking_eval_generator stream inputs mask_token eos_token pad_token
      mask_rate g res g' :
  BLT_masking stream inputs mask_token eos_token pad_token mask_rate false g = (res, g') ->
  match res with
  | Ok _ => g' = {| seed := seed g; offset := 0 |}
  | Raise _ => seed g' = 0
  end.
Proof.
  rewrite BLT_masking_unfold. cbv zeta.
  destruct (mask_rows _ _ _ _ _ _); intros H; injection H as <- <-; reflexivity.
Qed.

(** C9.  The code on a generator that was seeded with 3 and from which four
    values were drawn since: the non-training call returns and leaves the
    generator seeded with 3 anew, at the start of its stream, which is not
    the state it was called in; the values drawn next are the first three of
    the stream, not the three that would have followed. *)
Theorem BLT_masking_eval_rewinds_generator :
  let g := {| seed := 3; offset := 4 |} in
  exists res g',
    BLT_masking example_stream [[5; 1; 2; 100; 101]] 102 100 101 (1 # 2) false g
    = (Ok res, g')
    /\ g' = {| seed := 3; offset := 0 |}
    /\ g' <> g
    /\ draws example_stream g 3 = [50 # 101; 87 # 101; 23 # 101]
    /\ draws example_stream g' 3 = [3 # 101; 40 # 101; 77 # 101].
Proof.
  cbv zeta. eexists _, _. split; [vm_compute; reflexivity|].
  split; [reflexivity|]. split; [discriminate|]. split; reflexivity.
Qed.

(** ... and at rate 2, where the gather raises: the generator is left with
    the forced seed. *)
Lemma BLT_masking_eval_raise_keeps_seed_0 :
  BLT_masking example_stream [[5; 1; 2; 100; 101]] 102 100 101 2 false
              {| seed := 3; offset := 4 |}
  = (Raise RuntimeError, {| seed := 0; offset := 5 |}).
Proof. vm_compute. reflexivity. Qed.

(** ** The learning-rate multiplier *)

Lemma ratio_nonneg warmup final iters :
  warmup <= iters ->
  (0 <= IZR (iters - warmup) / IZR (Z.max 1 (final - warmup)))%R.
Proof.
  intros H. apply Rmult_le_pos.
  - apply IZR_le. lia.
  - left. apply Rinv_0_lt_compat. apply IZR_lt. lia.
Qed.

Lemma lr_mult_refines_spec warmup final iters :
  lr_mult warmup final iters = spec_multiplier warmup final iters.
Proof.
  unfold lr_mult, spec_multiplier, clamp.
  destruct (Z.ltb_spec iters warmup) as [H|H]; [reflexivity|].
  cbv zeta.
  pose proof (ratio_nonneg warmup final iters H) as Hr.
  set (x := (IZR (iters - warmup) / IZR (Z.max 1 (final - warmup)))%R) in *.
  rewrite (Rmax_right 0 (Rmin 1 x)); [reflexivity|]. apply Rmin_glb; [lra|exact Hr].
Qed.

Lemma lr_mult_at_warmup warmup final : lr_mult warmup final warmup = 1%R.
Proof.
  unfold lr_mult. rewrite Z.ltb_irrefl. cbv zeta.
  rewrite Z.sub_diag.
  replace (0 / IZR (Z.max 1 (final - warmup)))%R with 0%R by (unfold Rdiv; ring).
  rewrite Rmin_right by lra. rewrite Rmult_0_r, cos_0.
  rewrite Rmax_right by lra. lra.
Qed.

Lemma lr_mult_floor warmup final iters :
  warmup < iters -> (1 / 10 <= lr_mult warmup final iters)%R.
Proof.
  intros H. unfold lr_mult.
  destruct (Z.ltb_spec iters warmup) as [H'|H']; [lia|]. apply Rmax_l.
Qed.

Lemma lr_mult_at_0 warmup final : 0 < warmup -> lr_mult warmup final 0 = 0%R.
Proof.
  intros H. unfold lr_mult.
  destruct (Z.ltb_spec 0 warmup) as [H'|H']; [|lia].
  unfold Rdiv. apply Rmult_0_l.
Qed.

Lemma lr_mult_at_final warmup final :
  warmup < final -> lr_mult warmup final final = (1 / 10)%R.
Proof.
  intros H. unfold lr_mult.
  destruct (Z.ltb_spec final warmup) as [H'|H']; [lia|]. cbv zeta.
  rewrite Z.max_r by lia.
  assert (E : (IZR (final - warmup) / IZR (final - warmup))%R = 1%R).
  { apply Rdiv_diag. apply not_0_IZR. lia. }
  rewrite E, Rmin_left by lra. rewrite Rmult_1_r, cos_PI.
  rewrite Rmax_left by lra. reflexivity.
Qed.

(** C4, amended.  The multiplier of the code is the piecewise function of the
    specification, the lower clamp at 0 included.  It is 1 at [warmup_iters]
    and at least 0.1 at every iteration after [warmup_iters].  It is 0 at
    iteration 0 when there is a warmup (0 < warmup_iters), and 0.1 at
    [final_iters] when the decay has a length (warmup_iters < final_iters). *)
Theorem lr_mult_schedule warmup final :
  (forall iteration,
      lr_mult warmup final iteration = spec_multiplier warmup final iteration)
  /\ lr_mult warmup final warmup = 1%R
  /\ (forall iteration, warmup < iteration ->
                        (1 / 10 <= lr_mult warmup final iteration)%R)
  /\ (0 < warmup -> lr_mult warmup final 0 = 0%R)
  /\ (warmup < final -> lr_mult warmup final final = (1 / 10)%R).
Proof.
  split; [apply lr_mult_refines_spec|].
  split; [apply lr_mult_at_warmup|].
  split; [apply lr_mult_floor|].
  split; [apply lr_mult_at_0|apply lr_mult_at_final].
Qed.

Lemma lr_mult_schedule_witness :
  lr_mult 5000 25000 0 = 0%R /\ lr_mult 5000 25000 25000 = (1 / 10)%R.
Proof.
  destruct (lr_mult_schedule 5000 25000) as (_ & _ & _ & H0 & Hf).
  split; [apply H0|apply Hf]; reflexivity.
Defined.

(** C4, as stated, fails without a warmup: the multiplier at 0 is 1; and
    when the decay ends where the warmup ends, the multiplier there is 1. *)
Lemma lr_mult_without_warmup :
  lr_mult 0 25000 0 = 1%R /\ lr_mult 0 25000 0 <> 0%R
  /\ lr_mult 5000 5000 5000 = 1%R /\ lr_mult 5000 5000 5000 <> (1 / 10)%R.
Proof.
  pose proof (lr_mult_at_warmup 0 25000) as H0.
  pose proof (lr_mult_at_warmup 5000 5000) as H1.
  rewrite H0, H1. repeat split; lra.
Qed.

(** ** The evaluation mask rate *)

Lemma ratio_monotone (b b' N : Z) :
  1 <= N -> b <= b' -> (inject_Z b / inject_Z N <= inject_Z b' / inject_Z N)%Q.
Proof.
  intros HN Hb. unfold Qdiv. apply Qmult_le_compat_r.
  - rewrite <- Zle_Qle. exact Hb.
  - apply Qinv_le_0_compat. change 0%Q with (inject_Z 0). rewrite <- Zle_Qle. lia.
Qed.

(** C5, amended.  In an evaluation pass over N >= 1 batches the mask rate of
    batch b is 0.15 + (0.7 - 0.15) * min(b / N, 1), whatever rates the
    configuration holds; this is the formula over the configured rates when
    these are 0.15 and 0.7.  The rate does not decrease with the batch index
    and is 0.15 at the first batch. *)
Theorem eval_mask_rate_ramp cfg u N b b' :
  1 <= N -> b <= b' ->
  (mask_rate_at cfg false u b N
   == (15 # 100) + ((7 # 10) - (15 # 100)) * Qmin (inject_Z b / inject_Z N) 1)%Q
  /\ (forall cfg' u', mask_rate_at cfg' false u' b N = mask_rate_at cfg false u b N)
  /\ (mask_rate_at cfg false u b N <= mask_rate_at cfg false u b' N)%Q
  /\ (mask_rate_at cfg false u 0 N == 15 # 100)%Q
  /\ ((start_mask_rate cfg == 15 # 100)%Q -> (end_mask_rate cfg == 7 # 10)%Q ->
      (mask_rate_at cfg false u b N
       == start_mask_rate cfg
          + (end_mask_rate cfg - start_mask_rate cfg)
            * Qmin (inject_Z b / inject_Z N) 1)%Q).
Proof.
  intros HN Hb. unfold mask_rate_at.
  split; [reflexivity|]. split; [reflexivity|]. split; [|split].
  - apply Qplus_le_r.
    rewrite (Qmult_comm _ (Qmin (inject_Z b / inject_Z N) 1)),
            (Qmult_comm _ (Qmin (inject_Z b' / inject_Z N) 1)).
    apply Qmult_le_compat_r; [|discriminate].
    apply Q.min_le_compat_r. apply ratio_monotone; assumption.
  - unfold Qdiv. rewrite Qmult_0_l.
    rewrite Q.min_l by discriminate. reflexivity.
  - intros Hs He. rewrite Hs, He. reflexivity.
Qed.

Lemma eval_mask_rate_ramp_witness :
  (mask_rate_at default_config false 0 1 4 <= mask_rate_at default_config false 0 3 4)%Q
  /\ (mask_rate_at default_config false 0 0 4 == 15 # 100)%Q.
Proof.
  destruct (eval_mask_rate_ramp default_config 0 4 1 3) as (_ & _ & Hm & H0 & _).
  - lia.
  - lia.
  - split; [exact Hm|exact H0].
Defined.

(** C5, as stated, fails: other configured rates are not used, and the
    last of four batches has rate 0.5625, not the end rate. *)
Lemma eval_mask_rate_ignores_config :
  let cfg := with_mask_rates default_config (3 # 10) (9 # 10) in
  ~ (mask_rate_at cfg false 0 0 4
     == start_mask_rate cfg
        + (end_mask_rate cfg - start_mask_rate cfg) * Qmin (inject_Z 0 / inject_Z 4) 1)%Q
  /\ (mask_rate_at default_config false 0 3 4 == 5625 # 10000)%Q
  /\ ~ (mask_rate_at default_config false 0 3 4 == end_mask_rate default_config)%Q.
Proof.
  cbv zeta. split; [|split].
  - intros H. vm_compute in H. discriminate H.
  - reflexivity.
  - intros H. vm_compute in H. discriminate H.
Qed.

(** ** The NaN guard *)

Lemma nan_count_pos g : (nan_count g >? 0) = true <-> In NaN g.
Proof.
  unfold nan_count. rewrite Z.gtb_ltb, Z.ltb_lt. split.
  - intros H. destruct (filter isnan g) as [|v l] eqn:E; [simpl in H; lia|].
    assert (Hv : In v (filter isnan g)) by (rewrite E; left; reflexivity).
    apply filter_In in Hv. destruct Hv as [Hin Hn].
    destruct v; try discriminate. exact Hin.
  - intros H.
    assert (Hv : In NaN (filter isnan g)) by (apply filter_In; auto).
    destruct (filter isnan g); [contradiction|simpl; lia].
Qed.

Lemma check_for_nan_gradients_spec model :
  check_for_nan_gradients model = true <-> has_nan model.
Proof.
  unfold has_nan. induction model as [|[name grad] rest IH]; simpl.
  - split; [discriminate|]. intros (? & ? & [] & _).
  - destruct grad as [g|].
    + destruct (nan_count g >? 0) eqn:E.
      * split; [|reflexivity]. intros _. exists name, g.
        split; [left; reflexivity|apply nan_count_pos, E].
      * rewrite IH. split.
        -- intros (n & g' & Hin & Hn). exists n, g'. auto.
        -- intros (n & g' & [Heq|Hin] & Hn).
           ++ injection Heq as _ <-. apply nan_count_pos in Hn. congruence.
           ++ exists n, g'. auto.
    + rewrite IH. split.
      * intros (n & g' & Hin & Hn). exists n, g'. auto.
      * intros (n & g' & [Heq|Hin] & Hn); [discriminate|]. exists n, g'. auto.
Qed.

Lemma all_finite_no_nan model : all_finite model -> ~ has_nan model.
Proof.
  intros Hf (name & g & Hin & Hn). specialize (Hf name g NaN Hin Hn). discriminate.
Qed.

Lemma non_finite_nan_or_inf model :
  has_non_finite model -> has_nan model \/ has_inf model.
Proof.
  intros (name & g & v & Hin & Hv & Hf). destruct v; try discriminate.
  - right. exists name, g, PInf. auto.
  - right. exists name, g, NInf. auto.
  - left. exists name, g. auto.
Qed.

Section Guard.
Variable clip_grad_norm_ : Q -> named_parameters -> named_parameters.
(** Clipping multiplies every gradient by [max_norm / (total_norm + 1e-6)],
    capped at 1: an infinite entry makes the total norm infinite and the
    factor 0, and the entry becomes NaN. *)
Hypothesis clip_inf_nan : forall max_norm model,
    has_inf (clip_grad_norm_ max_norm model) ->
    has_nan (clip_grad_norm_ max_norm model).

Variable cfg : TrainerConfig.
Let clipped (backward : named_parameters) : named_parameters :=
  clip_grad_norm_ (grad_norm_clip cfg) backward.

Lemma train_batch_aborts t backward :
  has_non_finite (clipped backward) ->
  train_batch clip_grad_norm_ cfg t backward = None.
Proof.
  intros H. unfold train_batch. cbv zeta.
  assert (Hn : has_nan (clipped backward)).
  { destruct (non_finite_nan_or_inf _ H) as [Hn|Hi]; [exact Hn|].
    apply clip_inf_nan, Hi. }
  apply check_for_nan_gradients_spec in Hn. unfold clipped in Hn. rewrite Hn.
  reflexivity.
Qed.

Lemma train_batch_steps t backward :
  all_finite (clipped backward) ->
  train_batch clip_grad_norm_ cfg t backward
  = Some {| iters := iters t + 1; optimizer_steps := optimizer_steps t + 1 |}.
Proof.
  intros H. unfold train_batch. cbv zeta.
  destruct (check_for_nan_gradients _) eqn:E; [|reflexivity].
  apply check_for_nan_gradients_spec in E.
  exfalso. exact (all_finite_no_nan _ H E).
Qed.

(** The iteration counter moves with the optimizer steps. *)
Lemma run_epoch_train_in_step batches : forall t,
  let t' := snd (run_epoch_train clip_grad_norm_ cfg t batches) in
  iters t' - iters t = optimizer_steps t' - optimizer_steps t
  /\ 0 <= optimizer_steps t' - optimizer_steps t <= Z.of_nat (List.length batches).
Proof.
  induction batches as [|b batches IH]; intros t; cbv zeta; simpl.
  - lia.
  - unfold train_batch. cbv zeta.
    destruct (check_for_nan_gradients _); simpl; [lia|].
    specialize (IH {| iters := iters t + 1; optimizer_steps := optimizer_steps t + 1 |}).
    cbv zeta in IH. simpl in IH. lia.
Qed.

Lemma run_epoch_train_finite batches : forall t,
  Forall (fun b => all_finite (clipped b)) batches ->
  run_epoch_train clip_grad_norm_ cfg t batches
  = (PassCompleted,
     {| iters := iters t + Z.of_nat (List.length batches);
        optimizer_steps := optimizer_steps t + Z.of_nat (List.length batches) |}).
Proof.
  induction batches as [|b batches IH]; intros t H.
  - simpl. rewrite !Z.add_0_r. destruct t; reflexivity.
  - inversion H as [|? ? Hb Hrest]; subst.
    cbn [run_epoch_train]. rewrite (train_batch_steps t b Hb), (IH _ Hrest).
    cbn [iters optimizer_steps]. f_equal. f_equal; simpl List.length; lia.
Qed.
End Guard.

(** C3.  Gradients are taken as [clip_grad_norm_] leaves them: no infinity
    without a NaN.  After batches whose gradients are finite, a batch with a
    gradient value that is not finite ends the pass at once in the state
    reached before it: no optimizer step, the iteration counter unchanged,
    the rest of the batches not run, and the pass returns.  A batch whose
    gradients are all finite is not aborted: it takes one optimizer step and
    adds one to the iteration counter.  Over any pass the counter has grown by
    the number of optimizer steps. *)
Theorem nan_guard_aborts_epoch clip_grad_norm_ cfg t before backward rest :
  (forall max_norm model,
      has_inf (clip_grad_norm_ max_norm model) ->
      has_nan (clip_grad_norm_ max_norm model)) ->
  Forall (fun b => all_finite (clip_grad_norm_ (grad_norm_clip cfg) b)) before ->
  let reached := {| iters := iters t + Z.of_nat (List.length before);
                    optimizer_steps := optimizer_steps t + Z.of_nat (List.length before) |} in
  run_epoch_train clip_grad_norm_ cfg t before = (PassCompleted, reached)
  /\ (has_non_finite (clip_grad_norm_ (grad_norm_clip cfg) backward) ->
      train_batch clip_grad_norm_ cfg reached backward = None
      /\ run_epoch_train clip_grad_norm_ cfg t (before ++ backward :: rest)
         = (PassAborted, reached))
  /\ (all_finite (clip_grad_norm_ (grad_norm_clip cfg) backward) ->
      train_batch clip_grad_norm_ cfg reached backward
      = Some {| iters := iters reached + 1;
                optimizer_steps := optimizer_steps reached + 1 |}
      /\ run_epoch_train clip_grad_norm_ cfg t (before ++ backward :: rest)
         = run_epoch_train clip_grad_norm_ cfg
             {| iters := iters reached + 1;
                optimizer_steps := optimizer_steps reached + 1 |} rest)
  /\ (forall batches,
        let t' := snd (run_epoch_train clip_grad_norm_ cfg t batches) in
        iters t' - iters t = optimizer_steps t' - optimizer_steps t).
Proof.
  intros Hclip Hbefore reached.
  assert (Hsplit : forall l,
             run_epoch_train clip_grad_norm_ cfg t (before ++ l)
             = run_epoch_train clip_grad_norm_ cfg reached l).
  { intros l. subst reached. revert t Hbefore.
    induction before as [|b before IH]; intros t H.
    - simpl. rewrite !Z.add_0_r. destruct t; reflexivity.
    - inversion H as [|? ? Hb Hrest]; subst.
      cbn [app run_epoch_train]. rewrite (train_batch_steps _ cfg t b Hb).
      rewrite (IH _ Hrest). cbn [iters optimizer_steps]. f_equal. f_equal;
        simpl List.length; lia. }
  split; [apply run_epoch_train_finite, Hbefore|]. split; [|split].
  - intros Hbad.
    pose proof (train_batch_aborts _ Hclip cfg reached backward Hbad) as E.
    split; [exact E|]. rewrite Hsplit. cbn [run_epoch_train]. rewrite E. reflexivity.
  - intros Hfin.
    pose proof (train_batch_steps _ cfg reached backward Hfin) as E.
    split; [exact E|]. rewrite Hsplit. cbn [run_epoch_train]. rewrite E. reflexivity.
  - intros batches. apply run_epoch_train_in_step.
Qed.

Lemma example_clip_inf_nan max_norm model :
  has_inf (example_clip max_norm model) -> has_nan (example_clip max_norm model).
Proof.
  intros (name & g & v & Hin & Hv & Hinf). exfalso.
  unfold example_clip in Hin. apply in_map_iff in Hin.
  destruct Hin as ([n [g'|]] & E & _); simpl in E; [|discriminate].
  injection E as _ <-. apply in_map_iff in Hv. destruct Hv as (v' & <- & _).
  destruct v'; discriminate.
Qed.

Lemma nan_guard_aborts_epoch_witness :
  let good := [("w"%string, Some [Fin 1; Fin (1 # 2)]); ("b"%string, None)] in
  let bad := [("w"%string, Some [Fin 1; PInf]); ("b"%string, Some [Fin 0])] in
  run_epoch_train example_clip default_config {| iters := 7; optimizer_steps := 7 |}
                  ([good] ++ bad :: [good])
  = (PassAborted, {| iters := 8; optimizer_steps := 8 |}).
Proof.
  cbv zeta.
  refine (proj2 (proj1 (proj2
    (nan_guard_aborts_epoch example_clip default_config
       {| iters := 7; optimizer_steps := 7 |}
       [[("w"%string, Some [Fin 1; Fin (1 # 2)]); ("b"%string, None)]]
       [("w"%string, Some [Fin 1; PInf]); ("b"%string, Some [Fin 0])]
       [[("w"%string, Some [Fin 1; Fin (1 # 2)]); ("b"%string, None)]]
       example_clip_inf_nan _)) _)).
  - constructor; [|constructor].
    intros name g v [E|[E|[]]] Hv; simpl in E; [|discriminate].
    injection E as _ <-. destruct Hv as [<-|[<-|[]]]; reflexivity.
  - exists "w"%string, [Fin 1; NaN], NaN.
    split; [left; reflexivity|]. split; [right; left; reflexivity|reflexivity].
Defined.

(** ** The epoch loop *)

Lemma grows_refl st : grows st st.
Proof. exists []. symmetry. apply app_nil_r. Qed.

Lemma grows_trans st1 st2 st3 : grows st1 st2 -> grows st2 st3 -> grows st1 st3.
Proof.
  intros [t1 H1] [t2 H2]. exists (t1 ++ t2). rewrite H2, H1, app_assoc. reflexivity.
Qed.

Lemma grows_emit e st : grows st (emit e st).
Proof. exists [e]. reflexivity. Qed.

Lemma grows_and_then r k st :
  grows st (stmt_state r) ->
  (forall st', grows st' (stmt_state (k st'))) ->
  grows st (stmt_state (r >>= k)).
Proof.
  intros Hr Hk. destruct r as [st'|e st']; simpl in *; [|exact Hr].
  eapply grows_trans; [exact Hr|apply Hk].
Qed.

Section LoopFacts.
Variable has_test_dataset : bool.
Variable test_pass : Z -> fval.
Variable int : string -> option Z.

Lemma grows_save_checkpoint id st : grows st (stmt_state (save_checkpoint id st)).
Proof.
  unfold save_checkpoint. destruct (ckpt_dir (config st)); simpl;
    [apply grows_emit|apply grows_refl].
Qed.

Lemma grows_print_status st : grows st (stmt_state (print_status st)).
Proof. unfold print_status. destruct (test_loss st); apply grows_refl. Qed.

Lemma grows_keep_best good st : grows st (stmt_state (keep_best good st)).
Proof.
  unfold keep_best. destruct (ckpt_dir (config st)) eqn:E; [|apply grows_refl].
  destruct good; [|apply grows_refl].
  destruct (test_loss st) as [v|]; [|apply grows_refl].
  pose proof (grows_save_checkpoint None (set_best_loss v st)) as H. exact H.
Qed.

Lemma grows_maybe_sample st : grows st (stmt_state (maybe_sample st)).
Proof.
  unfold maybe_sample. destruct (samples_dir (config st)); [|apply grows_refl].
  destruct (sample_every (config st) =? 0); [apply grows_refl|].
  destruct (_ =? 0); [apply grows_emit|apply grows_refl].
Qed.

Lemma grows_end_of_epoch st :
  grows st (stmt_state (end_of_epoch has_test_dataset st)).
Proof.
  unfold end_of_epoch. apply grows_and_then; [apply grows_save_checkpoint|].
  intros st'. destruct (good_model has_test_dataset st'); [apply grows_refl|].
  apply grows_and_then; [|apply grows_maybe_sample].
  apply grows_and_then; [apply grows_print_status|apply grows_keep_best].
Qed.

Lemma grows_ask_operator st : grows st (turn_state (ask_operator int st)).
Proof.
  unfold ask_operator. destruct (stdin st) as [|line rest]; [apply grows_refl|].
  assert (H : grows st (emit (Input line) (set_stdin rest st))) by (exists [Input line]; reflexivity).
  destruct (int line) as [temp|]; [|exact H].
  destruct (temp >? 0); exact H.
Qed.

(** Every turn starts with the training pass of the next epoch. *)
Lemma train_turn_starts_epoch st :
  exists tail,
    events (turn_state (train_turn has_test_dataset test_pass int st))
    = events st ++ RunEpoch (epoch st + 1) "train" :: tail.
Proof.
  set (s1 := emit (RunEpoch (epoch st + 1) "train") (set_epoch (epoch st + 1) st)).
  assert (H : grows s1 (turn_state (train_turn has_test_dataset test_pass int st))).
  { unfold train_turn.
    assert (Hb : grows s1 (stmt_state (run_epochs has_test_dataset test_pass
                                         (set_epoch (epoch st + 1) st)
                                       >>= end_of_epoch has_test_dataset))).
    { apply grows_and_then; [|apply grows_end_of_epoch].
      unfold run_epochs. cbv zeta. fold s1.
      destruct has_test_dataset; simpl; [|apply grows_refl].
      exists [RunEpoch (epoch st + 1) "test"]. reflexivity. }
    destruct (_ >>= _) as [st'|e st']; simpl in Hb; [|exact Hb].
    destruct (_ >=? _); [|exact Hb].
    eapply grows_trans; [exact Hb|apply grows_ask_operator]. }
  destruct H as [tail H]. exists tail. rewrite H. unfold s1. simpl.
  rewrite <- app_assoc. reflexivity.
Qed.

(** C6, amended.  When the body of a turn ends with the epoch counter at or
    above the maximum, the loop reads one line.  If the line parses as a
    positive integer n, the maximum grows by n and the loop goes on: its next
    turn starts with the training pass of the next epoch.  If the line does
    not parse as an integer, the loop ends: no further epoch, no exception. *)
Theorem operator_extends_or_stops st st1 line rest :
  run_epochs has_test_dataset test_pass (set_epoch (epoch st + 1) st)
    >>= end_of_epoch has_test_dataset = Done st1 ->
  epoch st1 >= max_epochs (config st1) ->
  stdin st1 = line :: rest ->
  let asked := emit (Input line) (set_stdin rest st1) in
  (forall n, int line = Some n -> 0 < n ->
     let resumed := extend_max_epochs n asked in
     train_turn has_test_dataset test_pass int st = Next resumed
     /\ max_epochs (config resumed) = max_epochs (config st1) + n
     /\ stdin resumed = rest
     /\ (forall fuel,
            train_loop has_test_dataset test_pass int (S fuel) st
            = train_loop has_test_dataset test_pass int fuel resumed)
     /\ exists tail,
         events (turn_state (train_turn has_test_dataset test_pass int resumed))
         = events st1 ++ Input line :: RunEpoch (epoch st1 + 1) "train" :: tail)
  /\ (int line = None ->
      train_turn has_test_dataset test_pass int st = Stop asked
      /\ events asked = events st1 ++ [Input line]
      /\ forall fuel,
          train_loop has_test_dataset test_pass int (S fuel) st = Finished asked).
Proof.
  intros Hbody Hmax Hin asked.
  assert (Hge : (epoch st1 >=? max_epochs (config st1)) = true).
  { rewrite Z.geb_leb. apply Z.leb_le. lia. }
  split.
  - intros n Hn Hpos resumed.
    assert (Hturn : train_turn has_test_dataset test_pass int st = Next resumed).
    { unfold train_turn. rewrite Hbody, Hge. unfold ask_operator.
      rewrite Hin. cbv zeta. rewrite Hn.
      assert (E : (n >? 0) = true) by (rewrite Z.gtb_ltb; apply Z.ltb_lt; exact Hpos).
      rewrite E. reflexivity. }
    split; [exact Hturn|]. split; [reflexivity|]. split; [reflexivity|]. split.
    + intros fuel. cbn [train_loop]. rewrite Hturn. reflexivity.
    + destruct (train_turn_starts_epoch resumed) as [tail H].
      exists tail. rewrite H. unfold resumed, asked. simpl.
      rewrite <- app_assoc. reflexivity.
  - intros Hn.
    assert (Hturn : train_turn has_test_dataset test_pass int st = Stop asked).
    { unfold train_turn. rewrite Hbody, Hge. unfold ask_operator.
      rewrite Hin. cbv zeta. rewrite Hn. reflexivity. }
    split; [exact Hturn|]. split; [reflexivity|].
    intros fuel. cbn [train_loop]. rewrite Hturn. reflexivity.
Qed.
End LoopFacts.

Lemma operator_extends_or_stops_witness :
  (exists st,
      train_turn true example_loss ascii_int (initial_state example_config ["3"; "abc"]%string)
      = Next st
      /\ max_epochs (config st) = 4 /\ stdin st = ["abc"%string])
  /\ (exists st,
         train_turn true example_loss ascii_int (initial_state example_config ["abc"]%string)
         = Stop st
         /\ events st = [RunEpoch 1 "train"; RunEpoch 1 "test"; SaveCheckpoint (Some 1);
                         SaveCheckpoint None; Input "abc"]).
Proof.
  split.
  - edestruct (operator_extends_or_stops true example_loss ascii_int
                 (initial_state example_config ["3"; "abc"]%string))
      as [Hpos _].
    + vm_compute. reflexivity.
    + vm_compute. discriminate.
    + reflexivity.
    + destruct (Hpos 3 eq_refl eq_refl) as (Hturn & Hmax & Hin & _).
      eexists. split; [exact Hturn|]. split; [exact Hmax|exact Hin].
  - edestruct (operator_extends_or_stops true example_loss ascii_int
                 (initial_state example_config ["abc"]%string))
      as [_ Hnone].
    + vm_compute. reflexivity.
    + vm_compute. discriminate.
    + reflexivity.
    + destruct (Hnone eq_refl) as (Hturn & Hev & _).
      eexists. split; [exact Hturn|exact Hev].
Defined.

(** C6, as stated, fails on a number that is not positive: on "0" the loop
    goes on, runs epoch 2 and asks again. *)
Lemma nonpositive_input_runs_another_epoch :
  ascii_int "0" = Some 0
  /\ (exists st,
         train_turn true example_loss ascii_int
                    (initial_state example_config ["0"; "abc"]%string) = Next st
         /\ max_epochs (config st) = 1 /\ epoch st = 1)
  /\ exists st,
      train true example_loss ascii_int 2 example_config ["0"; "abc"]%string = Finished st
      /\ events st
         = [RunEpoch 1 "train"; RunEpoch 1 "test"; SaveCheckpoint (Some 1);
            SaveCheckpoint None; Input "0";
            RunEpoch 2 "train"; RunEpoch 2 "test"; SaveCheckpoint (Some 2);
            SaveCheckpoint None; Input "abc"].
Proof.
  split; [reflexivity|]. split.
  - eexists. split; [vm_compute; reflexivity|]. split; reflexivity.
  - eexists. split; [vm_compute; reflexivity|]. reflexivity.
Qed.

(** ** The end of an epoch *)

(** With a test set and a checkpoint directory: the checkpoint of the epoch
    is written, and the best one and [best_loss] exactly when the loss of the
    test pass is below [best_loss]. *)
Lemma end_of_epoch_with_test_set st dir t b :
  ckpt_dir (config st) = Some dir ->
  samples_dir (config st) = None ->
  test_loss st = Some (PyFloat t) ->
  best_loss st = PyFloat b ->
  end_of_epoch true st
  = Done (if flt t b
          then emit (SaveCheckpoint None)
                    (set_best_loss (PyFloat t)
                                   (emit (SaveCheckpoint (Some (epoch st))) st))
          else emit (SaveCheckpoint (Some (epoch st))) st).
Proof.
  destruct st as [cfg e bl tl inp ev]. simpl. intros Hdir Hs -> ->.
  unfold end_of_epoch, save_checkpoint, good_model, print_status, keep_best,
    save_checkpoint, maybe_sample, and_then. simpl.
  rewrite Hdir. simpl. rewrite Hdir.
  destruct (flt t b); simpl; rewrite ?Hdir, ?Hs; simpl; rewrite ?Hs; reflexivity.
Qed.

(** C7.  The code without a test set, with a checkpoint directory: the first
    turn writes the checkpoint of epoch 1 and then raises at the [print],
    where [test_loss] was never assigned; the best checkpoint is not written
    and [best_loss] keeps its initial value. *)
Theorem train_without_test_set_raises test_pass int fuel cfg dir lines :
  train false test_pass int (S fuel) (with_ckpt_dir cfg dir) lines
  = Raised UnboundLocalError
      {| config := with_ckpt_dir cfg dir; epoch := 1; best_loss := PyFloat PInf;
         test_loss := None; stdin := lines;
         events := [RunEpoch 1 "train"; SaveCheckpoint (Some 1)] |}.
Proof. reflexivity. Qed.

(** With the default [ckpt_dir = None] the checkpoint of the epoch cannot be
    written: [os.path.join] raises. *)
Lemma train_without_ckpt_dir_raises has_test_dataset test_pass int fuel lines :
  exists st,
    train has_test_dataset test_pass int (S fuel) default_config lines
    = Raised TypeError st
    /\ forall id, ~ In (SaveCheckpoint id) (events st).
Proof.
  destruct has_test_dataset; eexists; (split; [reflexivity|]);
    intros id H; simpl in H; intuition discriminate.
Qed.

(** ** When [BLT_masking] raises *)





(** ** Which positions [BLT_masking] masks *)

Lemma final_mask_nth sm : forall rnd c j b,
  nth_error (final_mask sm (fill_unmaskable sm rnd) c) j = Some b ->
  exists t x, nth_error sm j = Some t /\ nth_error rnd j = Some x
              /\ b = t && Qle_bool (if t then x else 2) c.
Proof.
  unfold final_mask, fill_unmaskable.
  induction sm as [|t sm IH]; intros [|x rnd] c j b H; simpl in H;
    try (destruct j; discriminate).
  destruct j as [|j]; simpl in H.
  - injection H as <-. exists t, x. auto.
  - destruct (IH rnd c j b H) as (t' & x' & H1 & H2 & H3). exists t', x'. auto.
Qed.

(** The indicator of a row is the final mask at the clamped cutoff. *)
Lemma mask_row_result mask_token eos_token pad_token mask_rate s rnd m b :
  mask_row mask_token eos_token pad_token mask_rate s rnd = Ok (m, b) ->
  let sm := should_mask_row eos_token pad_token s in
  exists c, row_cut_off sm (fill_unmaskable sm rnd) mask_rate = Ok c
            /\ b = final_mask sm (fill_unmaskable sm rnd) (clamp_cut_off c).
Proof.
  unfold mask_row. cbv zeta.
  destruct (row_cut_off _ _ _) as [c|e]; simpl; [|discriminate].
  intros H. injection H as _ <-. exists c. split; reflexivity.
Qed.

(** X2.  The masked positions of a row are its lowest-scored maskable
    positions: a masked position has a strictly smaller score than every
    maskable position of the row that is left unmasked. *)
Theorem BLT_masking_masks_lowest_scores stream inputs mask_token eos_token pad_token
        mask_rate training g masked mask g' :
  BLT_masking stream inputs mask_token eos_token pad_token mask_rate training g
  = (Ok (masked, mask), g') ->
  forall i s r m,
    nth_error inputs i = Some s ->
    nth_error (drawn_scores stream inputs training g) i = Some r ->
    nth_error mask i = Some m ->
    forall j1 j2 t2 x1 x2,
      nth_error m j1 = Some true ->
      nth_error m j2 = Some false ->
      nth_error s j2 = Some t2 -> maskable eos_token pad_token t2 = true ->
      nth_error r j1 = Some x1 -> nth_error r j2 = Some x2 ->
      (x1 < x2)%Q.
Proof.
  rewrite BLT_masking_unfold. cbv zeta.
  destruct (mask_rows _ _ _ _ inputs _) as [[ms bs]|e] eqn:Erows; [|discriminate].
  intros H. injection H as <- <- _.
  intros i s r m Hs Hr Hm j1 j2 t2 x1 x2 H1 H2 Ht2 Hmask Hx1 Hx2.
  destruct (mask_rows_nth _ _ _ _ _ _ _ _ Erows i s r Hs Hr) as (m' & b & _ & Hb & Hrow).
  rewrite Hm in Hb. injection Hb as <-.
  destruct (mask_row_result _ _ _ _ _ _ _ _ Hrow) as (c & _ & ->).
  destruct (final_mask_nth _ _ _ _ _ H1) as (t & x & Ht & Hx & E1).
  destruct (final_mask_nth _ _ _ _ _ H2) as (t' & x' & Ht' & Hx' & E2).
  rewrite Hx1 in Hx. injection Hx as <-. rewrite Hx2 in Hx'. injection Hx' as <-.
  unfold should_mask_row in Ht'. rewrite nth_error_map, Ht2 in Ht'. simpl in Ht'.
  injection Ht' as <-. rewrite Hmask in E2. simpl in E2.
  symmetry in E1. apply andb_true_iff in E1. destruct E1 as [-> E1].
  apply Qle_bool_iff in E1.
  eapply Qle_lt_trans; [exact E1|].
  apply Qnot_le_lt. intros Hle. apply Qle_bool_iff in Hle. congruence.
Qed.

Lemma BLT_masking_masks_lowest_scores_witness :
  (23 # 101 < 50 # 101)%Q.
Proof.
  refine (BLT_masking_masks_lowest_scores example_stream
            [[5; 1; 2; 100; 101]] 102 100 101 (1 # 3) true {| seed := 3; offset := 4 |}
            [[5; 1; 102; 100; 101]] [[false; false; true; false; false]]
            {| seed := 3; offset := 9 |} _
            0%nat [5; 1; 2; 100; 101] _ [false; false; true; false; false]
            eq_refl eq_refl eq_refl 2%nat 0%nat 5 (23 # 101)%Q (50 # 101)%Q
            eq_refl eq_refl eq_refl eq_refl eq_refl eq_refl).
  vm_compute. reflexivity.
Defined.




(** ** The clamp of the cutoff *)





(** ** Rate 0 *)

Lemma mask_lens_rate_0 n mask_rate : (mask_rate == 0)%Q -> mask_lens n mask_rate = 0.
Proof.
  intros H. unfold mask_lens. rewrite <- (Qceiling_Z 0).
  apply Qceiling_comp. rewrite H. apply Qmult_0_r.
Qed.

(** Below cutoff 0 no position is selected. *)
Lemma final_mask_negative sm : forall rnd c,
  List.length sm = List.length rnd -> in_unit rnd -> (c < 0)%Q ->
  final_mask sm (fill_unmaskable sm rnd) c = map (fun _ => false) sm.
Proof.
  unfold final_mask, fill_unmaskable.
  induction sm as [|b sm IH]; intros [|x rnd] c Hlen Hu Hc; try discriminate;
    [reflexivity|].
  inversion Hu as [|? ? [Hx _] Hr]; subst. simpl.
  rewrite (IH rnd c ltac:(simpl in Hlen; lia) Hr Hc). f_equal.
  destruct b; simpl; [|reflexivity].
  apply not_true_iff_false. rewrite Qle_bool_iff. apply Qlt_not_le.
  eapply Qlt_le_trans; eassumption.
Qed.

Lemma mask_row_rate_0 mask_token eos_token pad_token mask_rate s rnd :
  List.length rnd = List.length s -> in_unit rnd -> (mask_rate == 0)%Q ->
  mask_row mask_token eos_token pad_token mask_rate s rnd
  = Ok (s, map (fun _ => false) s).
Proof.
  intros Hlen Hu H0. unfold mask_row, row_cut_off, gather. cbv zeta.
  set (sm := should_mask_row eos_token pad_token s).
  assert (Hsm : List.length sm = List.length rnd).
  { unfold sm, should_mask_row. rewrite length_map. congruence. }
  rewrite (mask_lens_rate_0 _ _ H0). rewrite torch_sort_length.
  unfold inserted_rand at 1. rewrite length_app. simpl List.length.
  assert (E : (0 <=? 0) && (0 <? Z.of_nat (List.length (fill_unmaskable sm rnd) + 1)) = true).
  { apply andb_true_intro. split; [reflexivity|apply Z.ltb_lt; lia]. }
  rewrite E. simpl Z.to_nat.
  destruct (nth_error (torch_sort (inserted_rand (fill_unmaskable sm rnd))) 0)
    as [c|] eqn:Hc.
  2:{ apply nth_error_None in Hc. rewrite torch_sort_length in Hc.
      unfold inserted_rand in Hc. rewrite length_app in Hc. simpl in Hc. lia. }
  simpl bind.
  assert (Hneg : (c < 0)%Q).
  { pose proof (ascending_below_nth _ (torch_sort_ascending _) _ _ Hc) as Hb.
    rewrite <- (cnt_perm _ _ _ (torch_sort_perm _)) in Hb.
    unfold inserted_rand in Hb. rewrite cnt_app, cnt_cons in Hb.
    destruct (below c (-1)) eqn:Eb; [lia|].
    apply not_true_iff_false in Eb. rewrite below_iff in Eb.
    apply Qnot_lt_le in Eb. eapply Qle_lt_trans; [exact Eb|reflexivity]. }
  assert (Hclamp : clamp_cut_off c = c).
  { apply clamp_idle. eapply Qlt_trans; [exact Hneg|reflexivity]. }
  rewrite Hclamp.
  pose proof (final_mask_negative sm rnd c Hsm Hu Hneg) as Ef.
  unfold final_mask in Ef. rewrite Ef. f_equal. f_equal.
  - unfold sm, should_mask_row. rewrite map_map. clear.
    induction s as [|t s IH]; simpl; [reflexivity|]. rewrite IH. reflexivity.
  - unfold sm, should_mask_row. apply map_map.
Qed.

Lemma mask_rows_rate_0 mask_token eos_token pad_token mask_rate inputs rand :
  Forall2 (fun s r => List.length r = List.length s /\ in_unit r) inputs rand ->
  (mask_rate == 0)%Q ->
  mask_rows mask_token eos_token pad_token mask_rate inputs rand
  = Ok (inputs, map (map (fun _ => false)) inputs).
Proof.
  intros H H0. induction H as [|s r ss rs [Hlen Hu] _ IH]; [reflexivity|].
  simpl. rewrite (mask_row_rate_0 _ _ _ _ s r Hlen Hu H0), IH. reflexivity.
Qed.

(** X5.  At rate 0 the call returns, no position is masked and the masked
    batch is the input: the cutoff is the sentinel -1, below every score. *)
Theorem BLT_masking_rate_0_masks_nothing stream inputs L mask_token eos_token
        pad_token mask_rate training g :
  (forall s n, (0 <= stream s n)%Q /\ (stream s n < 1)%Q) ->
  rectangular L inputs ->
  (mask_rate == 0)%Q ->
  exists g',
    BLT_masking stream inputs mask_token eos_token pad_token mask_rate training g
    = (Ok (inputs, map (map (fun _ => false)) inputs), g').
Proof.
  intros Hunit Hrect H0. rewrite BLT_masking_unfold. cbv zeta.
  assert (E : mask_rows mask_token eos_token pad_token mask_rate inputs
                        (drawn_scores stream inputs training g)
              = Ok (inputs, map (map (fun _ => false)) inputs)).
  { apply mask_rows_rate_0; [|exact H0]. unfold drawn_scores.
    apply (torch_rand_rows stream Hunit L inputs _ Hrect). }
  rewrite E. eauto.
Qed.

Lemma BLT_masking_rate_0_masks_nothing_witness :
  exists g',
    BLT_masking example_stream [[5; 1; 2; 100; 101]] 102 100 101 0 true
                {| seed := 3; offset := 4 |}
    = (Ok ([[5; 1; 2; 100; 101]], [[false; false; false; false; false]]), g').
Proof.
  refine (BLT_masking_rate_0_masks_nothing example_stream [[5; 1; 2; 100; 101]] 5
            102 100 101 0 true {| seed := 3; offset := 4 |} example_stream_unit _ _).
  - repeat constructor.
  - reflexivity.
Defined.

(** ** The generator *)

(** X6.  A non-training call is reproducible: its result does not depend on
    the state of the generator it is called in, and the generator it leaves
    depends on the seed of that state only. *)
Theorem BLT_masking_eval_reproducible stream inputs mask_token eos_token pad_token
        mask_rate g1 g2 :
  fst (BLT_masking stream inputs mask_token eos_token pad_token mask_rate false g1)
  = fst (BLT_masking stream inputs mask_token eos_token pad_token mask_rate false g2)
  /\ (seed g1 = seed g2 ->
      BLT_masking stream inputs mask_token eos_token pad_token mask_rate false g1
      = BLT_masking stream inputs mask_token eos_token pad_token mask_rate false g2).
Proof.
  rewrite !BLT_masking_unfold. cbv zeta. unfold drawn_scores, manual_seed.
  split.
  - destruct (mask_rows _ _ _ _ _ _); reflexivity.
  - intros E. unfold initial_seed. rewrite E. reflexivity.
Qed.

(** ** When [test_masking] raises *)

Lemma single_eos_dec eos_token s : {single_eos eos_token s} + {~ single_eos eos_token s}.
Proof. unfold single_eos. apply le_dec. Qed.

Lemma test_mask_rows_raises mask_token eos_token pad_token max_len inputs :
  ~ Forall (single_eos eos_token) inputs ->
  forall i, test_mask_rows mask_token eos_token pad_token max_len i inputs
            = Raise RuntimeError.
Proof.
  induction inputs as [|s inputs IH]; intros H i.
  - exfalso. apply H. constructor.
  - simpl. unfold test_mask_row at 1.
    destruct (single_eos_dec eos_token s) as [Hs|Hs].
    + rewrite (eos_index_single _ _ Hs). simpl.
      rewrite IH; [reflexivity|]. intros Hrest. apply H. constructor; assumption.
    + rewrite (eos_index_several _ _ Hs). reflexivity.
Qed.

(** X8.  [test_masking] returns exactly on the batches that are not empty and
    in which every sequence holds [eos_token] at most once; on an empty batch
    it raises [ValueError] (the [max] of no length), on a sequence with a
    second [eos_token] [RuntimeError] (the [.item()] of two indices). *)
Theorem test_masking_returns_iff inputs mask_token eos_token pad_token :
  ((exists res, test_masking inputs mask_token eos_token pad_token = Ok res)
   <-> inputs <> [] /\ Forall (single_eos eos_token) inputs)
  /\ (inputs = [] ->
      test_masking inputs mask_token eos_token pad_token = Raise ValueError)
  /\ (inputs <> [] -> ~ Forall (single_eos eos_token) inputs ->
      test_masking inputs mask_token eos_token pad_token = Raise RuntimeError).
Proof.
  assert (Hbad : inputs <> [] -> ~ Forall (single_eos eos_token) inputs ->
                 test_masking inputs mask_token eos_token pad_token = Raise RuntimeError).
  { intros Hne Hs. destruct inputs as [|s inputs]; [congruence|].
    unfold test_masking. apply test_mask_rows_raises, Hs. }
  split; [|split; [intros ->; reflexivity|exact Hbad]].
  split.
  - intros [res H]. destruct inputs as [|s inputs]; [discriminate|].
    split; [discriminate|].
    destruct (Forall_dec _ (single_eos_dec eos_token) (s :: inputs)) as [Hs|Hs];
      [exact Hs|].
    rewrite (Hbad ltac:(discriminate) Hs) in H. discriminate.
  - intros [Hne Hs]. destruct inputs as [|s inputs]; [congruence|].
    unfold test_masking. apply test_mask_rows_total, Hs.
Qed.

Lemma test_masking_returns_iff_witness :
  (exists res, test_masking [[5; 6; 100; 101]; [5; 6; 7; 8]] 102 100 101 = Ok res)
  /\ test_masking [[5; 100; 6; 100]] 102 100 101 = Raise RuntimeError.
Proof.
  split.
  - apply (proj2 (proj1 (test_masking_returns_iff [[5; 6; 100; 101]; [5; 6; 7; 8]]
                           102 100 101))).
    split; [discriminate|]. repeat constructor; unfold single_eos; simpl; lia.
  - apply (proj2 (proj2 (test_masking_returns_iff [[5; 100; 6; 100]] 102 100 101)));
      [discriminate|].
    intros H. inversion H as [|? ? Hs _]; subst. unfold single_eos in Hs. simpl in Hs. lia.
Defined.

(** ** The rows of [test_masking] *)

Lemma test_mask_rows_nth mask_token eos_token pad_token max_len inputs :
  forall i0 masked mask,
    test_mask_rows mask_token eos_token pad_token max_len i0 inputs = Ok (masked, mask) ->
    forall i s, nth_error inputs i = Some s ->
      exists m b, nth_error masked i = Some m /\ nth_error mask i = Some b
                  /\ test_mask_row mask_token eos_token pad_token max_len (i0 + i) s
                     = Ok (m, b).
Proof.
  induction inputs as [|s0 inputs IH]; intros i0 masked mask H i s Hi.
  - destruct i; discriminate.
  - simpl in H.
    destruct (test_mask_row _ _ _ _ i0 s0) as [[m0 b0]|e] eqn:Erow; simpl in H;
      [|discriminate].
    destruct (test_mask_rows _ _ _ _ (S i0) inputs) as [[ms bs]|e] eqn:Erest;
      simpl in H; [|discriminate].
    injection H as <- <-. destruct i as [|i]; simpl in Hi.
    + injection Hi as <-. exists m0, b0. rewrite Nat.add_0_r. auto.
    + destruct (IH (S i0) ms bs Erest i s Hi) as (m & b & H1 & H2 & H3).
      exists m, b. rewrite Nat.add_succ_r. auto.
Qed.

Lemma valid_length_at eos_token s :
  (valid_length eos_token s < List.length s)%nat ->
  nth_error s (valid_length eos_token s) = Some eos_token.
Proof.
  induction s as [|t s IH]; simpl; [lia|].
  destruct (Z.eqb_spec t eos_token) as [->|E]; [reflexivity|].
  intros H. simpl. apply IH. lia.
Qed.

(** X9.  In a returned row the [eos_token] stays where it is and every
    position after it holds [pad_token], whatever the input held there:
    [test_masking] keeps the sequence up to its first [eos_token] only. *)
Theorem test_masking_pads_after_eos inputs L mask_token eos_token pad_token masked mask :
  rectangular L inputs ->
  test_masking inputs mask_token eos_token pad_token = Ok (masked, mask) ->
  forall i s, nth_error inputs i = Some s ->
    exists m, nth_error masked i = Some m
      /\ List.length m = L
      /\ ((valid_length eos_token s < L)%nat ->
          nth_error m (valid_length eos_token s) = Some eos_token)
      /\ (forall j, (valid_length eos_token s < j < L)%nat ->
                    nth_error m j = Some pad_token).
Proof.
  intros Hrect H i s Hs.
  destruct inputs as [|s0 inputs]; [discriminate|].
  unfold test_masking in H. rewrite (max_len_rectangular L s0 inputs Hrect) in H.
  destruct (test_mask_rows_nth _ _ _ _ _ _ _ _ H i s Hs) as (m & b & Hm & _ & Hrow).
  assert (Hlen : List.length s = L).
  { unfold rectangular in Hrect. rewrite Forall_forall in Hrect.
    apply Hrect. eapply nth_error_In, Hs. }
  exists m. split; [exact Hm|].
  destruct (test_mask_row_lengths _ _ _ _ _ _ _ _ Hlen Hrow) as [Lm _].
  split; [exact Lm|].
  pose proof (test_mask_row_masked _ _ _ _ _ _ _ _ Hlen Hrow) as Hpos.
  split.
  - intros Hv. rewrite <- Hlen in Hv.
    rewrite (Hpos _ _ (valid_length_at eos_token s Hv)).
    rewrite Nat.ltb_irrefl. cbn [andb].
    destruct (Nat.ltb_spec (valid_length eos_token s) (valid_length eos_token s + 1));
      [reflexivity|lia].
  - intros j [Hj1 Hj2].
    destruct (nth_error s j) as [t|] eqn:Ht.
    2:{ apply nth_error_None in Ht. lia. }
    rewrite (Hpos j t Ht).
    destruct (Nat.ltb_spec j (valid_length eos_token s)); [lia|]. cbn [andb].
    destruct (Nat.ltb_spec j (valid_length eos_token s + 1)); [lia|reflexivity].
Qed.

Lemma test_masking_pads_after_eos_witness :
  exists m, nth_error [[5; 102; 100; 101; 101]] 0 = Some m
    /\ List.length m = 5%nat
    /\ ((valid_length 100%Z [5; 6; 100; 7; 8]%Z < 5)%nat ->
        nth_error m (valid_length 100 [5; 6; 100; 7; 8]) = Some 100)
    /\ (forall j, (valid_length 100%Z [5; 6; 100; 7; 8]%Z < j < 5)%nat ->
                  nth_error m j = Some 101).
Proof.
  refine (test_masking_pads_after_eos [[5; 6; 100; 7; 8]] 5 102 100 101
            [[5; 102; 100; 101; 101]] [[false; true; false; false; false]] _ _
            0%nat [5; 6; 100; 7; 8] eq_refl).
  - repeat constructor.
  - vm_compute. reflexivity.
Defined.

(** ** How many positions [test_masking] masks *)

Lemma trues_app l1 l2 : trues (l1 ++ l2) = (trues l1 + trues l2)%nat.
Proof. unfold trues. apply count_occ_app. Qed.

Lemma trues_all_false {A : Type} (f : A -> bool) l :
  (forall x, In x l -> f x = false) -> trues (map f l) = 0%nat.
Proof.
  induction l as [|x l IH]; intros H; [reflexivity|].
  unfold trues in *. simpl. rewrite (H x (or_introl eq_refl)). simpl.
  apply IH. intros y Hy. apply H. right. exact Hy.
Qed.

(** Seven consecutive indices hold two of the slice. *)
Lemma slice_of_block v : trues (map in_slice (seq v 7)) = 2%nat.
Proof.
  assert (H : forall i, in_slice (i + v) = in_slice (i + v mod 7)).
  { intros i. unfold in_slice. rewrite <- (Nat.Div0.add_mod_idemp_r i v 7).
    reflexivity. }
  cbn [seq map].
  change (S (S (S (S (S (S v)))))) with (6 + v)%nat.
  change (S (S (S (S (S v))))) with (5 + v)%nat.
  change (S (S (S (S v)))) with (4 + v)%nat.
  change (S (S (S v))) with (3 + v)%nat.
  change (S (S v)) with (2 + v)%nat.
  change (S v) with (1 + v)%nat.
  change (in_slice v) with (in_slice (0 + v)).
  rewrite !H.
  pose proof (Nat.mod_upper_bound v 7 ltac:(discriminate)) as Hr.
  destruct (v mod 7)%nat as [|[|[|[|[|[|[|r]]]]]]]; try lia; reflexivity.
Qed.

Lemma slice_of_blocks r : forall q,
  trues (map in_slice (seq 0 (7 * q + r))) = (2 * q + trues (map in_slice (seq 0 r)))%nat.
Proof.
  induction q as [|q IH].
  - rewrite Nat.mul_0_r. reflexivity.
  - replace (7 * S q + r)%nat with ((7 * q + r) + 7)%nat by lia.
    rewrite seq_app, map_app, trues_app, IH, slice_of_block. lia.
Qed.

Lemma slice_count v :
  trues (map in_slice (seq 0 v)) = (2 * (v / 7) + Nat.min 2 (v mod 7 - 1))%nat.
Proof.
  rewrite (Nat.div_mod_eq v 7) at 1. rewrite slice_of_blocks. f_equal.
  pose proof (Nat.mod_upper_bound v 7 ltac:(discriminate)) as Hr.
  destruct (v mod 7)%nat as [|[|[|[|[|[|[|r]]]]]]]; try lia; reflexivity.
Qed.

Lemma expected_mask_count eos_token max_len s :
  (valid_length eos_token s <= max_len)%nat ->
  trues (expected_mask eos_token max_len s)
  = trues (map in_slice (seq 0 (valid_length eos_token s))).
Proof.
  intros Hv. unfold expected_mask.
  replace max_len with (valid_length eos_token s + (max_len - valid_length eos_token s))%nat
    at 1 by lia.
  rewrite seq_app, map_app, trues_app.
  rewrite (trues_all_false _ (seq (0 + valid_length eos_token s) _)).
  - rewrite Nat.add_0_r. f_equal. apply map_ext_in. intros j Hj.
    apply in_seq in Hj.
    assert (E : (j <? valid_length eos_token s)%nat = true) by (apply Nat.ltb_lt; lia).
    rewrite E. reflexivity.
  - intros j Hj. apply in_seq in Hj.
    assert (E : (j <? valid_length eos_token s)%nat = false) by (apply Nat.ltb_ge; lia).
    rewrite E. reflexivity.
Qed.

Lemma max_len_bound (s : list Z) inputs :
  In s inputs ->
  (List.length s <= fold_right Nat.max 0%nat (map (@List.length Z) inputs))%nat.
Proof.
  induction inputs as [|s0 inputs IH]; intros H; [contradiction|].
  simpl. destruct H as [->|H]; [lia|]. specialize (IH H). lia.
Qed.

(** X10.  [test_masking] masks two positions of every complete block of 7
    within the valid length and, of a last incomplete block of r tokens,
    min(2, r - 1): a row of valid length v has 2 * (v div 7) +
    min(2, v mod 7 - 1) masked positions. *)
Theorem test_masking_two_per_block inputs mask_token eos_token pad_token masked mask :
  test_masking inputs mask_token eos_token pad_token = Ok (masked, mask) ->
  forall i s, nth_error inputs i = Some s ->
    exists m, nth_error mask i = Some m
      /\ trues m = (2 * (valid_length eos_token s / 7)
                    + Nat.min 2 (valid_length eos_token s mod 7 - 1))%nat.
Proof.
  intros H i s Hs. destruct inputs as [|s0 inputs]; [discriminate|].
  unfold test_masking in H.
  destruct (test_mask_rows_nth _ _ _ _ _ _ _ _ H i s Hs) as (m & b & _ & Hb & Hrow).
  exists b. split; [exact Hb|].
  rewrite (test_mask_row_mask _ _ _ _ _ _ _ _ Hrow).
  rewrite expected_mask_count; [apply slice_count|].
  pose proof (valid_length_le eos_token s).
  pose proof (max_len_bound s (s0 :: inputs) (nth_error_In _ _ Hs)). lia.
Qed.

Lemma test_masking_two_per_block_witness :
  exists m, nth_error [[false; true; true; false; false; false; false; false; true;
                        false; false]] 0 = Some m
    /\ trues m = (2 * (valid_length 100%Z [5; 1; 2; 3; 6; 7; 8; 9; 10; 100; 101]%Z / 7)
                  + Nat.min 2 (valid_length 100%Z [5; 1; 2; 3; 6; 7; 8; 9; 10; 100; 101]%Z
                               mod 7 - 1))%nat.
Proof.
  refine (test_masking_two_per_block [[5; 1; 2; 3; 6; 7; 8; 9; 10; 100; 101]] 102 100 101
            [[5; 102; 102; 3; 6; 7; 8; 9; 102; 100; 101]]
            [[false; true; true; false; false; false; false; false; true; false; false]]
            _ 0%nat [5; 1; 2; 3; 6; 7; 8; 9; 10; 100; 101] eq_refl).
  vm_compute. reflexivity.
Defined.

(** ** What the NaN guard sees *)

(** X11.  [check_for_nan_gradients] answers [True] exactly when some
    parameter that has a gradient holds a NaN in it; parameters without a
    gradient are passed over, and a model whose gradients hold no NaN is
    answered [False] even when they hold infinities. *)
Theorem check_for_nan_gradients_sees_only_nan model :
  (check_for_nan_gradients model = true
   <-> exists name g, In (name, Some g) model /\ In NaN g)
  /\ ((forall name g v, In (name, Some g) model -> In v g -> isnan v = false) ->
      check_for_nan_gradients model = false).
Proof.
  split; [apply check_for_nan_gradients_spec|].
  intros H. apply not_true_iff_false. rewrite check_for_nan_gradients_spec.
  intros (name & g & Hin & Hn). specialize (H name g NaN Hin Hn). discriminate.
Qed.

Lemma check_for_nan_gradients_sees_only_nan_witness :
  check_for_nan_gradients
    [("w"%string, Some [Fin 1; PInf; NInf]); ("b"%string, None)] = false.
Proof.
  apply (proj2 (check_for_nan_gradients_sees_only_nan
                  [("w"%string, Some [Fin 1; PInf; NInf]); ("b"%string, None)])).
  intros name g v [E|[E|[]]] Hv; [|discriminate].
  injection E as _ <-. destruct Hv as [<-|[<-|[<-|[]]]]; reflexivity.
Defined.

(** ** The learning rate *)

Lemma lr_mult_bounds warmup final iters :
  0 <= iters -> (0 <= lr_mult warmup final iters <= 1)%R.
Proof.
  intros H. unfold lr_mult.
  destruct (Z.ltb_spec iters warmup) as [Hw|Hw].
  - rewrite Z.max_r by lia.
    assert (Hpos : (0 < IZR warmup)%R) by (apply IZR_lt; lia).
    assert (H1 : (0 <= IZR iters)%R) by (apply IZR_le; lia).
    assert (H2 : (IZR iters <= IZR warmup)%R) by (apply IZR_le; lia).
    split.
    + apply Rmult_le_pos; [exact H1|]. left. apply Rinv_0_lt_compat, Hpos.
    + apply (Rmult_le_reg_r (IZR warmup)); [exact Hpos|].
      unfold Rdiv. rewrite Rmult_assoc, Rinv_l by lra. lra.
  - cbv zeta.
    set (p := Rmin 1 (IZR (iters - warmup) / IZR (Z.max 1 (final - warmup)))).
    pose proof (COS_bound (PI * p)) as [Hlo Hhi].
    split.
    + eapply Rle_trans; [|apply Rmax_l]. lra.
    + apply Rmax_lub; lra.
Qed.

(** X12.  For a base rate that is not negative, the learning rate written to
    the parameter groups lies between 0 and the base rate at every iteration,
    with or without decay. *)
Theorem lr_never_exceeds_base cfg iters :
  0 <= iters -> (0 <= learning_rate cfg)%Q ->
  (0 <= lr_at cfg iters <= Q2R (learning_rate cfg))%R.
Proof.
  intros Hi Hq.
  assert (Hb : (0 <= Q2R (learning_rate cfg))%R).
  { apply Qreals.Qle_Rle in Hq. replace (Q2R 0) with 0%R in Hq; [exact Hq|].
    unfold Q2R. simpl. lra. }
  unfold lr_at. destruct (lr_decay cfg); [|lra].
  pose proof (lr_mult_bounds (warmup_iters cfg) (final_iters cfg) iters Hi) as [H0 H1].
  split; [apply Rmult_le_pos; assumption|].
  rewrite <- (Rmult_1_r (Q2R (learning_rate cfg))) at 2.
  apply Rmult_le_compat_l; assumption.
Qed.

Lemma lr_never_exceeds_base_witness :
  (0 <= lr_at default_config 12000 <= Q2R (3 # 10000))%R.
Proof.
  apply (lr_never_exceeds_base default_config 12000); [lia|discriminate].
Defined.

(** X13.  From [final_iters] on (and after the warmup) the multiplier stays
    at the floor 0.1. *)
Theorem lr_mult_stays_at_floor warmup final iters :
  warmup < iters -> final <= iters -> lr_mult warmup final iters = (1 / 10)%R.
Proof.
  intros Hw Hf. unfold lr_mult.
  destruct (Z.ltb_spec iters warmup) as [H|H]; [lia|]. cbv zeta.
  assert (Hp : Rmin 1 (IZR (iters - warmup) / IZR (Z.max 1 (final - warmup))) = 1%R).
  { apply Rmin_left.
    assert (Hd : (0 < IZR (Z.max 1 (final - warmup)))%R) by (apply IZR_lt; lia).
    apply (Rmult_le_reg_r (IZR (Z.max 1 (final - warmup)))); [exact Hd|].
    unfold Rdiv. rewrite Rmult_assoc, Rinv_l by lra. rewrite Rmult_1_l, Rmult_1_r.
    apply IZR_le. lia. }
  rewrite Hp, Rmult_1_r, cos_PI. rewrite Rmax_left by lra. reflexivity.
Qed.

Lemma lr_mult_stays_at_floor_witness :
  lr_mult 5000 25000 40000 = (1 / 10)%R.
Proof. apply lr_mult_stays_at_floor; lia. Defined.

Lemma progress_monotone warmup final i1 i2 :
  warmup <= i1 -> i1 <= i2 ->
  let p := fun i => Rmin 1 (IZR (i - warmup) / IZR (Z.max 1 (final - warmup))) in
  (0 <= p i1 <= p i2)%R /\ (p i2 <= 1)%R.
Proof.
  intros H1 H2 p. unfold p.
  assert (Hd : (0 < / IZR (Z.max 1 (final - warmup)))%R).
  { apply Rinv_0_lt_compat, IZR_lt. lia. }
  assert (Ha : (0 <= IZR (i1 - warmup))%R) by (apply IZR_le; lia).
  assert (Hb : (IZR (i1 - warmup) <= IZR (i2 - warmup))%R) by (apply IZR_le; lia).
  repeat split.
  - apply Rmin_glb; [lra|]. apply Rmult_le_pos; lra.
  - apply Rle_min_compat_l. unfold Rdiv. apply Rmult_le_compat_r; lra.
  - apply Rmin_l.
Qed.

(** X14.  The multiplier does not decrease during the warmup and does not
    increase after it. *)
Theorem lr_mult_rises_then_falls warmup final i1 i2 :
  0 <= i1 -> i1 <= i2 ->
  (i2 < warmup -> (lr_mult warmup final i1 <= lr_mult warmup final i2)%R)
  /\ (warmup <= i1 -> (lr_mult warmup final i2 <= lr_mult warmup final i1)%R).
Proof.
  intros H0 H12. split.
  - intros Hw. unfold lr_mult.
    destruct (Z.ltb_spec i1 warmup); [|lia]. destruct (Z.ltb_spec i2 warmup); [|lia].
    unfold Rdiv. apply Rmult_le_compat_r.
    + left. apply Rinv_0_lt_compat, IZR_lt. lia.
    + apply IZR_le. exact H12.
  - intros Hw. unfold lr_mult.
    destruct (Z.ltb_spec i1 warmup); [lia|]. destruct (Z.ltb_spec i2 warmup); [lia|].
    cbv zeta.
    destruct (progress_monotone warmup final i1 i2 Hw H12) as [[Hp0 Hp12] Hp1].
    cbv zeta in Hp0, Hp12, Hp1.
    set (p1 := Rmin 1 (IZR (i1 - warmup) / IZR (Z.max 1 (final - warmup)))) in *.
    set (p2 := Rmin 1 (IZR (i2 - warmup) / IZR (Z.max 1 (final - warmup)))) in *.
    pose proof PI_RGT_0 as Hpi.
    assert (Hc : (cos (PI * p2) <= cos (PI * p1))%R).
    { apply cos_decr_1.
      - apply Rmult_le_pos; lra.
      - rewrite <- (Rmult_1_r PI) at 2. apply Rmult_le_compat_l; lra.
      - apply Rmult_le_pos; lra.
      - rewrite <- (Rmult_1_r PI) at 2. apply Rmult_le_compat_l; lra.
      - apply Rmult_le_compat_l; lra. }
    apply Rle_max_compat_l. lra.
Qed.

Lemma lr_mult_rises_then_falls_witness :
  (lr_mult 5000 25000 100 <= lr_mult 5000 25000 200)%R
  /\ (lr_mult 5000 25000 20000 <= lr_mult 5000 25000 10000)%R.
Proof.
  split.
  - apply (proj1 (lr_mult_rises_then_falls 5000 25000 100 200 ltac:(lia) ltac:(lia))). lia.
  - apply (proj2 (lr_mult_rises_then_falls 5000 25000 10000 20000 ltac:(lia) ltac:(lia))).
    lia.
Defined.

(** ** The range of the mask rates *)

(** The mask rate of a training batch lies between the configured rates. *)
Lemma mask_rate_train_bounds cfg u it total :
  (start_mask_rate cfg <= end_mask_rate cfg)%Q -> (0 <= u)%Q -> (u < 1)%Q ->
  (start_mask_rate cfg <= mask_rate_at cfg true u it total)%Q
  /\ (mask_rate_at cfg true u it total <= end_mask_rate cfg)%Q.
Proof.
  intros Hse Hu0 Hu1. unfold mask_rate_at.
  set (a := start_mask_rate cfg) in *. set (b := end_mask_rate cfg) in *.
  assert (Hd : (0 <= b - a)%Q).
  { unfold Qminus. rewrite <- (Qplus_opp_r a). apply Qplus_le_l. exact Hse. }
  assert (Hp : (0 <= (b - a) * u)%Q) by (apply Qmult_le_0_compat; assumption).
  assert (Hq : ((b - a) * u <= b - a)%Q).
  { rewrite <- (Qmult_1_r (b - a)) at 2.
    rewrite (Qmult_comm (b - a) u), (Qmult_comm (b - a) 1).
    apply Qmult_le_compat_r; [apply Qlt_le_weak, Hu1|exact Hd]. }
  assert (Eb : (a + (b - a) == b)%Q) by ring.
  split.
  - rewrite <- (Qplus_0_r a) at 1. apply Qplus_le_r. exact Hp.
  - rewrite <- Eb at 2. apply Qplus_le_r. exact Hq.
Qed.

(** X15.  In a training pass, with [start_mask_rate <= end_mask_rate] and the
    draw of [random.random()] in [0, 1), the mask rate is at least the start
    rate and at most the end rate. *)
Theorem train_mask_rate_range cfg u it total :
  (start_mask_rate cfg <= end_mask_rate cfg)%Q -> (0 <= u)%Q -> (u < 1)%Q ->
  (start_mask_rate cfg <= mask_rate_at cfg true u it total)%Q
  /\ (mask_rate_at cfg true u it total <= end_mask_rate cfg)%Q.
Proof. apply mask_rate_train_bounds. Qed.

Lemma train_mask_rate_range_witness :
  (15 # 100 <= mask_rate_at default_config true (1 # 2) 0 1)%Q
  /\ (mask_rate_at default_config true (1 # 2) 0 1 <= 7 # 10)%Q.
Proof.
  apply (train_mask_rate_range default_config (1 # 2) 0 1).
  - discriminate.
  - discriminate.
  - reflexivity.
Defined.

Lemma batch_ratio_range (it total : Z) :
  0 <= it < total ->
  (0 <= inject_Z it / inject_Z total)%Q /\ (inject_Z it / inject_Z total < 1)%Q.
Proof.
  intros [H0 H1].
  assert (Ht : (0 < inject_Z total)%Q).
  { change 0%Q with (inject_Z 0). rewrite <- Zlt_Qlt. lia. }
  split.
  - apply Qle_shift_div_l; [exact Ht|]. rewrite Qmult_0_l.
    change 0%Q with (inject_Z 0). rewrite <- Zle_Qle. exact H0.
  - apply Qlt_shift_div_r; [exact Ht|]. rewrite Qmult_1_l.
    rewrite <- Zlt_Qlt. exact H1.
Qed.

(** The mask rate of an evaluation batch lies in [0.15, 0.7). *)
Lemma mask_rate_eval_bounds cfg u it total :
  0 <= it < total ->
  (15 # 100 <= mask_rate_at cfg false u it total)%Q
  /\ (mask_rate_at cfg false u it total < 7 # 10)%Q.
Proof.
  intros H. destruct (batch_ratio_range it total H) as [Hr0 Hr1].
  unfold mask_rate_at.
  rewrite (Q.min_l _ 1 (Qlt_le_weak _ _ Hr1)).
  set (x := (inject_Z it / inject_Z total)%Q) in *.
  split.
  - rewrite <- (Qplus_0_r (15 # 100)) at 1. apply Qplus_le_r.
    apply Qmult_le_0_compat; [discriminate|exact Hr0].
  - apply Qlt_le_trans with ((15 # 100) + ((7 # 10) - (15 # 100)) * 1)%Q;
      [|discriminate].
    apply Qplus_lt_r.
    rewrite (Qmult_comm _ x), (Qmult_comm _ 1).
    apply Qmult_lt_compat_r; [reflexivity|exact Hr1].
Qed.

(** X16.  In an evaluation pass the mask rate of every batch (index from 0,
    below the number of batches) is at least 0.15 and strictly below 0.7:
    the ramp starts at 0.15 and never reaches its end value. *)
Theorem eval_mask_rate_range cfg u it total :
  0 <= it < total ->
  (15 # 100 <= mask_rate_at cfg false u it total)%Q
  /\ (mask_rate_at cfg false u it total < 7 # 10)%Q.
Proof. apply mask_rate_eval_bounds. Qed.

Lemma eval_mask_rate_range_witness :
  (15 # 100 <= mask_rate_at default_config false 0 3 4)%Q
  /\ (mask_rate_at default_config false 0 3 4 < 7 # 10)%Q.
Proof. apply eval_mask_rate_range. lia. Defined.



(** ** The best loss *)

Lemma flt_irrefl a : flt a a = false.
Proof.
  destruct a as [x| | |]; try reflexivity. simpl.
  apply negb_false_iff, Qle_bool_iff, Qle_refl.
Qed.

Lemma flt_asym a b : flt a b = true -> flt b a = false.
Proof.
  destruct a as [x| | |], b as [y| | |]; try discriminate; try reflexivity. simpl.
  rewrite negb_true_iff, negb_false_iff, <- not_true_iff_false, !Qle_bool_iff.
  intros H. apply Qlt_le_weak, Qnot_le_lt, H.
Qed.

Section BestLoss.
Variable test_pass : Z -> fval.
Variable int : string -> option Z.

Lemma best_after_save id st :
  best_loss (stmt_state (save_checkpoint id st)) = best_loss st.
Proof. unfold save_checkpoint. destruct (ckpt_dir (config st)); reflexivity. Qed.

Lemma best_after_sample st :
  best_loss (stmt_state (maybe_sample st)) = best_loss st.
Proof.
  unfold maybe_sample. destruct (samples_dir (config st)); [|reflexivity].
  destruct (sample_every (config st) =? 0); [reflexivity|].
  destruct (_ =? 0); reflexivity.
Qed.

Lemma best_after_ask st :
  best_loss (turn_state (ask_operator int st)) = best_loss st.
Proof.
  unfold ask_operator. destruct (stdin st) as [|line rest]; [reflexivity|].
  destruct (int line) as [temp|]; [|reflexivity].
  destruct (temp >? 0); reflexivity.
Qed.

(** The best loss after the end-of-epoch statements. *)
Lemma best_after_end_of_epoch st t b :
  test_loss st = Some (PyFloat t) -> best_loss st = PyFloat b ->
  best_loss (stmt_state (end_of_epoch true st))
  = PyFloat (match ckpt_dir (config st) with
             | Some _ => if flt t b then t else b
             | None => b
             end).
Proof.
  destruct st as [cfg e bl tl inp ev]. simpl. intros -> ->.
  unfold end_of_epoch, save_checkpoint, good_model, print_status, keep_best,
    save_checkpoint, and_then. simpl.
  destruct (ckpt_dir cfg) as [d|] eqn:Hd; simpl; [|reflexivity].
  rewrite Hd. destruct (flt t b); simpl; rewrite ?Hd; simpl; apply best_after_sample.
Qed.

(** X18.  Over a turn of the loop with a test set [best_loss] never
    increases: it stays, or becomes the loss of the test pass of the epoch
    when that is strictly lower. *)
Theorem best_loss_never_increases st b :
  best_loss st = PyFloat b ->
  exists b',
    best_loss (turn_state (train_turn true test_pass int st)) = PyFloat b'
    /\ flt b b' = false
    /\ (b' = b \/ (b' = test_pass (epoch st + 1) /\ flt b' b = true)).
Proof.
  intros Hb. unfold train_turn, run_epochs. cbv zeta. cbn [and_then].
  set (s1 := set_test_loss _ _).
  assert (Ht : test_loss s1 = Some (PyFloat (test_pass (epoch st + 1)))) by reflexivity.
  assert (Hb1 : best_loss s1 = PyFloat b) by exact Hb.
  pose proof (best_after_end_of_epoch s1 _ b Ht Hb1) as Hend.
  set (t := test_pass (epoch st + 1)) in *.
  assert (Hturn : best_loss (turn_state
                    match end_of_epoch true s1 with
                    | Done st0 =>
                        if epoch st0 >=? max_epochs (config st0)
                        then ask_operator int st0 else Next st0
                    | Throw e st0 => Crash e st0
                    end)
                  = best_loss (stmt_state (end_of_epoch true s1))).
  { destruct (end_of_epoch true s1) as [st0|e st0]; simpl; [|reflexivity].
    destruct (_ >=? _); [apply best_after_ask|reflexivity]. }
  rewrite Hturn, Hend.
  destruct (ckpt_dir (config s1)); [|exists b; auto using flt_irrefl].
  destruct (flt t b) eqn:E.
  - exists t. split; [reflexivity|]. split; [apply flt_asym, E|]. right. auto.
  - exists b. auto using flt_irrefl.
Qed.

End BestLoss.

Lemma best_loss_never_increases_witness :
  exists b',
    best_loss (turn_state (train_turn true example_loss ascii_int
                             (initial_state example_config ["abc"]%string)))
    = PyFloat b'
    /\ flt PInf b' = false
    /\ (b' = PInf \/ (b' = example_loss (0 + 1) /\ flt b' PInf = true)).
Proof.
  apply (best_loss_never_increases example_loss ascii_int
           (initial_state example_config ["abc"]%string) PInf).
  reflexivity.
Defined.

(** ** The number of epochs *)

Section Epochs.
Variable test_pass : Z -> fval.
Variable int : string -> option Z.

Lemma maybe_sample_clean st :
  samples_dir (config st) = None \/ sample_every (config st) <> 0 ->
  exists st', maybe_sample st = Done st' /\ same_locals st st'
              /\ best_loss st' = best_loss st.
Proof.
  intros H. unfold maybe_sample, same_locals.
  destruct (samples_dir (config st)) as [d|]; [|exists st; auto].
  destruct H as [H|H]; [discriminate|].
  destruct (sample_every (config st) =? 0) eqn:E;
    [apply Z.eqb_eq in E; contradiction|].
  destruct (_ mod _ =? 0); eexists; (split; [reflexivity|]); simpl; auto.
Qed.

(** The body of a turn up to the sampling, in a clean configuration. *)
Lemma body_clean st b :
  runs_clean (config st) -> best_loss st = PyFloat b ->
  exists st1 b',
    run_epochs true test_pass (set_epoch (epoch st + 1) st) >>= end_of_epoch true
    = Done st1
    /\ config st1 = config st /\ epoch st1 = epoch st + 1
    /\ stdin st1 = stdin st /\ best_loss st1 = PyFloat b'.
Proof.
  destruct st as [cfg e bl tl inp ev]. simpl. intros [Hd Hs] ->.
  destruct (ckpt_dir cfg) as [d|] eqn:Ed; [clear Hd|congruence].
  unfold run_epochs, end_of_epoch, save_checkpoint, good_model, print_status,
    keep_best, save_checkpoint, and_then. simpl. rewrite Ed. simpl. rewrite Ed.
  destruct (flt (test_pass (e + 1)) b); simpl; rewrite ?Ed.
  - match goal with |- context [maybe_sample ?s] =>
      destruct (maybe_sample_clean s Hs) as (st' & -> & (Hc & He & Hi) & Hb) end.
    exists st', (test_pass (e + 1)). simpl in *. auto.
  - match goal with |- context [maybe_sample ?s] =>
      destruct (maybe_sample_clean s Hs) as (st' & -> & (Hc & He & Hi) & Hb) end.
    exists st', b. simpl in *. auto.
Qed.

(** Below the maximum a turn reads nothing. *)
Lemma turn_below_max st b :
  runs_clean (config st) -> best_loss st = PyFloat b ->
  epoch st + 1 < max_epochs (config st) ->
  exists st1 b',
    train_turn true test_pass int st = Next st1
    /\ config st1 = config st /\ epoch st1 = epoch st + 1
    /\ stdin st1 = stdin st /\ best_loss st1 = PyFloat b'.
Proof.
  intros Hc Hb Hlt.
  destruct (body_clean st b Hc Hb) as (st1 & b' & Hbody & Hcfg & He & Hi & Hb').
  exists st1, b'. unfold train_turn. rewrite Hbody.
  assert (E : (epoch st1 >=? max_epochs (config st1)) = false).
  { rewrite Z.geb_leb. apply Z.leb_gt. rewrite Hcfg, He. exact Hlt. }
  rewrite E. auto.
Qed.

(** At or above the maximum a turn ends in the prompt. *)
Lemma turn_at_max st b :
  runs_clean (config st) -> best_loss st = PyFloat b ->
  max_epochs (config st) <= epoch st + 1 ->
  exists st1 b',
    train_turn true test_pass int st = ask_operator int st1
    /\ config st1 = config st /\ epoch st1 = epoch st + 1
    /\ stdin st1 = stdin st /\ best_loss st1 = PyFloat b'.
Proof.
  intros Hc Hb Hle.
  destruct (body_clean st b Hc Hb) as (st1 & b' & Hbody & Hcfg & He & Hi & Hb').
  exists st1, b'. unfold train_turn. rewrite Hbody.
  assert (E : (epoch st1 >=? max_epochs (config st1)) = true).
  { rewrite Z.geb_leb. apply Z.leb_le. rewrite Hcfg, He. exact Hle. }
  rewrite E. auto.
Qed.

Lemma train_loop_below_max fuel : forall st b,
  runs_clean (config st) -> best_loss st = PyFloat b ->
  (0 < Z.of_nat fuel -> epoch st + Z.of_nat fuel < max_epochs (config st)) ->
  exists st' b',
    train_loop true test_pass int fuel st = StillRunning st'
    /\ config st' = config st /\ epoch st' = epoch st + Z.of_nat fuel
    /\ stdin st' = stdin st /\ best_loss st' = PyFloat b'.
Proof.
  induction fuel as [|fuel IH]; intros st b Hc Hb Hlt.
  - exists st, b. simpl. rewrite Z.add_0_r. auto.
  - destruct (turn_below_max st b Hc Hb) as (st1 & b1 & Ht & Hcfg & He & Hi & Hb1); [lia|].
    destruct (IH st1 b1) as (st' & b' & Hl & Hcfg' & He' & Hi' & Hb');
      [rewrite Hcfg; exact Hc|exact Hb1|rewrite Hcfg, He; lia|].
    exists st', b'. cbn [train_loop]. rewrite Ht, Hl.
    repeat split; try congruence. lia.
Qed.

Lemma train_loop_add a : forall b st st',
  train_loop true test_pass int a st = StillRunning st' ->
  train_loop true test_pass int (a + b) st = train_loop true test_pass int b st'.
Proof.
  induction a as [|a IH]; intros b st st' H.
  - simpl in H. injection H as <-. reflexivity.
  - cbn [train_loop Nat.add] in *.
    destruct (train_turn true test_pass int st); try discriminate.
    apply IH, H.
Qed.

(** The loop has run max(1, max_epochs) - 1 epochs and read nothing when the
    turn that asks begins. *)
Lemma train_reaches_last_epoch cfg lines :
  runs_clean cfg ->
  exists st b,
    train true test_pass int (Z.to_nat (Z.max 1 (max_epochs cfg) - 1)) cfg lines
    = StillRunning st
    /\ config st = cfg /\ epoch st = Z.max 1 (max_epochs cfg) - 1
    /\ stdin st = lines /\ best_loss st = PyFloat b.
Proof.
  intros Hc. unfold train.
  destruct (train_loop_below_max (Z.to_nat (Z.max 1 (max_epochs cfg) - 1))
              (initial_state cfg lines) PInf Hc eq_refl)
    as (st & b & Hl & Hcfg & He & Hi & Hb); [simpl; lia|].
  exists st, b. simpl in *. repeat split; auto. lia.
Qed.

(** X19.  With a test set, a checkpoint directory, and sampling off or a
    non-zero [sample_every], the loop runs max(1, max_epochs) epochs before
    it reads its first line: until then the pending lines are untouched, and
    with no line to read [train] raises EOFError exactly at that epoch. *)
Theorem train_asks_after_max_epochs cfg :
  runs_clean cfg ->
  let n := Z.max 1 (max_epochs cfg) in
  (forall fuel lines, Z.of_nat fuel < n ->
     exists st,
       train true test_pass int fuel cfg lines = StillRunning st
       /\ epoch st = Z.of_nat fuel /\ stdin st = lines)
  /\ (forall fuel, n <= Z.of_nat fuel ->
        exists st,
          train true test_pass int fuel cfg [] = Raised EOFError st
          /\ epoch st = n).
Proof.
  intros Hc n. split.
  - intros fuel lines Hf. unfold train.
    destruct (train_loop_below_max fuel (initial_state cfg lines) PInf Hc eq_refl)
      as (st & b & Hl & _ & He & Hi & _); [simpl; lia|].
    exists st. simpl in *. auto.
  - intros fuel Hf.
    destruct (train_reaches_last_epoch cfg [] Hc) as (st & b & Hl & Hcfg & He & Hi & Hb).
    fold n in Hl, He.
    assert (Ef : fuel = (Z.to_nat (n - 1) + S (fuel - S (Z.to_nat (n - 1))))%nat) by lia.
    rewrite Ef. unfold train in *. rewrite (train_loop_add _ _ _ _ Hl).
    destruct (turn_at_max st b) as (st1 & b1 & Ht & Hcfg1 & He1 & Hi1 & _);
      [rewrite Hcfg; exact Hc|exact Hb|rewrite Hcfg, He; lia|].
    cbn [train_loop]. rewrite Ht. unfold ask_operator. rewrite Hi1, Hi.
    exists st1. split; [reflexivity|]. lia.
Qed.
End Epochs.

Lemma train_asks_after_max_epochs_witness :
  (exists st,
      train true example_loss ascii_int 2 (set_max_epochs example_config 3) ["abc"]%string
      = StillRunning st /\ epoch st = 2 /\ stdin st = ["abc"]%string)
  /\ exists st,
      train true example_loss ascii_int 5 (set_max_epochs example_config 3) []
      = Raised EOFError st /\ epoch st = 3.
Proof.
  assert (Hc : runs_clean (set_max_epochs example_config 3)).
  { split; [discriminate|left; reflexivity]. }
  destruct (train_asks_after_max_epochs example_loss ascii_int _ Hc) as [H1 H2].
  split.
  - apply (H1 2%nat). reflexivity.
  - apply (H2 5%nat). vm_compute. discriminate.
Defined.

Section Answers.
Variable test_pass : Z -> fval.
Variable int : string -> option Z.

(** From any state the loop runs on, reading nothing, to the prompt of epoch
    max(epoch + 1, max_epochs); the answer decides how it goes on. *)
Lemma train_loop_to_prompt st b fuel :
  runs_clean (config st) -> best_loss st = PyFloat b ->
  let m := Z.max (epoch st + 1) (max_epochs (config st)) in
  m - epoch st <= Z.of_nat fuel ->
  exists st1 b1,
    config st1 = config st /\ epoch st1 = m /\ stdin st1 = stdin st
    /\ best_loss st1 = PyFloat b1
    /\ train_loop true test_pass int fuel st
       = match ask_operator int st1 with
         | Next s => train_loop true test_pass int (fuel - Z.to_nat (m - epoch st)) s
         | Stop s => Finished s
         | Crash e s => Raised e s
         end.
Proof.
  intros Hc Hb m Hf.
  destruct (train_loop_below_max test_pass int (Z.to_nat (m - epoch st - 1)) st b Hc Hb)
    as (st' & b' & Hl & Hcfg & He & Hi & Hb'); [lia|].
  destruct (turn_at_max test_pass int st' b') as (st1 & b1 & Ht & Hcfg1 & He1 & Hi1 & Hb1);
    [rewrite Hcfg; exact Hc|exact Hb'|rewrite Hcfg, He; lia|].
  exists st1, b1.
  split; [congruence|]. split; [lia|]. split; [congruence|]. split; [exact Hb1|].
  assert (Ef : fuel = (Z.to_nat (m - epoch st - 1)
                       + S (fuel - Z.to_nat (m - epoch st)))%nat) by lia.
  rewrite Ef at 1. rewrite (train_loop_add _ _ _ _ _ _ Hl).
  cbn [train_loop]. rewrite Ht. reflexivity.
Qed.

Lemma train_loop_answers stop rest : forall answers st b fuel,
  runs_clean (config st) -> best_loss st = PyFloat b ->
  stdin st = answers ++ stop :: rest ->
  Forall (fun line => exists z, int line = Some z /\ z <= 0) answers ->
  int stop = None ->
  let m := Z.max (epoch st + 1) (max_epochs (config st)) in
  m - epoch st + Z.of_nat (List.length answers) <= Z.of_nat fuel ->
  exists st',
    train_loop true test_pass int fuel st = Finished st'
    /\ epoch st' = m + Z.of_nat (List.length answers)
    /\ stdin st' = rest /\ config st' = config st.
Proof.
  induction answers as [|a answers IH]; intros st b fuel Hc Hb Hin Hans Hstop m Hf.
  - destruct (train_loop_to_prompt st b fuel Hc Hb) as (st1 & b1 & Hcfg & He & Hi & Hb1 & Hl);
      [simpl in Hf; fold m; lia|].
    rewrite Hl. unfold ask_operator. rewrite Hi, Hin. simpl. rewrite Hstop.
    eexists. split; [reflexivity|]. simpl. fold m in He. split; [lia|]. auto.
  - destruct (train_loop_to_prompt st b fuel Hc Hb) as (st1 & b1 & Hcfg & He & Hi & Hb1 & Hl);
      [simpl List.length in Hf; fold m; lia|].
    fold m in He, Hl.
    inversion Hans as [|x l [z [Hz Hle]] Hrest]; subst x l.
    rewrite Hl. unfold ask_operator. rewrite Hi, Hin. cbn [app]. cbv beta iota zeta. rewrite Hz.
    assert (E : (z >? 0) = false) by (rewrite Z.gtb_ltb; apply Z.ltb_ge; exact Hle).
    rewrite E.
    set (s := emit (Input a) (set_stdin (answers ++ stop :: rest) st1)).
    destruct (IH s b1 (fuel - Z.to_nat (m - epoch st))%nat) as (st' & Hl' & He' & Hi' & Hcfg');
      try assumption.
    + simpl. rewrite Hcfg. exact Hc.
    + reflexivity.
    + simpl epoch. simpl config. rewrite Hcfg, He.
      simpl List.length in Hf. lia.
    + exists st'. split; [exact Hl'|]. simpl epoch in He'. simpl config in He', Hcfg'.
      rewrite Hcfg, He in He'. simpl List.length.
      split; [lia|]. split; [exact Hi'|congruence].
Qed.

(** X20.  With a test set, a checkpoint directory, and sampling off or a
    non-zero [sample_every]: an answer that is an integer but not positive
    neither extends the run nor ends it, each one costs one more epoch under
    the unchanged maximum.  After k such answers and one that is no integer,
    [train] returns at epoch max(1, max_epochs) + k with the configuration
    as it was and the remaining lines unread. *)
Theorem nonpositive_answers_cost_an_epoch cfg answers stop rest fuel :
  runs_clean cfg ->
  Forall (fun line => exists z, int line = Some z /\ z <= 0) answers ->
  int stop = None ->
  Z.max 1 (max_epochs cfg) + Z.of_nat (List.length answers) <= Z.of_nat fuel ->
  exists st,
    train true test_pass int fuel cfg (answers ++ stop :: rest) = Finished st
    /\ epoch st = Z.max 1 (max_epochs cfg) + Z.of_nat (List.length answers)
    /\ stdin st = rest
    /\ config st = cfg.
Proof.
  intros Hc Hans Hstop Hf. unfold train.
  destruct (train_loop_answers stop rest answers
              (initial_state cfg (answers ++ stop :: rest)) PInf fuel Hc eq_refl eq_refl
              Hans Hstop) as (st & Hl & He & Hi & Hcfg).
  - simpl. lia.
  - exists st. simpl in *. auto.
Qed.

(** X21.  With a test set, a checkpoint directory, sampling off or a
    non-zero [sample_every], and [max_epochs >= 1]: a positive answer n at
    the first prompt buys exactly n epochs.  The maximum becomes
    [max_epochs + n], nothing is read during the next n - 1 epochs, and the
    second line is read at epoch [max_epochs + n] (EOFError there when there
    is none). *)
Theorem positive_answer_adds_epochs cfg line n :
  runs_clean cfg -> 1 <= max_epochs cfg ->
  int line = Some n -> 0 < n ->
  (forall fuel rest,
      max_epochs cfg <= Z.of_nat fuel < max_epochs cfg + n ->
      exists st,
        train true test_pass int fuel cfg (line :: rest) = StillRunning st
        /\ epoch st = Z.of_nat fuel /\ stdin st = rest
        /\ max_epochs (config st) = max_epochs cfg + n)
  /\ (forall fuel,
         max_epochs cfg + n <= Z.of_nat fuel ->
         exists st,
           train true test_pass int fuel cfg [line] = Raised EOFError st
           /\ epoch st = max_epochs cfg + n).
Proof.
  intros Hc Hmax Hn Hpos.
  assert (E : (n >? 0) = true) by (rewrite Z.gtb_ltb; apply Z.ltb_lt; exact Hpos).
  assert (Hfirst : forall fuel rest, max_epochs cfg <= Z.of_nat fuel ->
            exists s b,
              train true test_pass int fuel cfg (line :: rest)
              = train_loop true test_pass int (fuel - Z.to_nat (max_epochs cfg)) s
              /\ config s = set_max_epochs cfg (max_epochs cfg + n)
              /\ epoch s = max_epochs cfg /\ stdin s = rest
              /\ best_loss s = PyFloat b).
  { intros fuel rest Hf. unfold train.
    destruct (train_loop_to_prompt (initial_state cfg (line :: rest)) PInf fuel Hc eq_refl)
      as (st1 & b1 & Hcfg & He & Hi & Hb1 & Hl); [simpl; lia|].
    simpl in Hcfg, He, Hi, Hl.
    unfold ask_operator in Hl. rewrite Hi in Hl. cbv zeta in Hl. rewrite Hn, E in Hl.
    eexists. exists b1. split.
    - rewrite Hl. f_equal. lia.
    - simpl. rewrite Hcfg. repeat split; auto. lia. }
  split.
  - intros fuel rest Hf.
    destruct (Hfirst fuel rest) as (s & b & Hl & Hcfg & He & Hi & Hb); [lia|].
    destruct (train_loop_below_max test_pass int (fuel - Z.to_nat (max_epochs cfg)) s b)
      as (st & b' & Hl' & Hcfg' & He' & Hi' & _).
    + rewrite Hcfg. exact Hc.
    + exact Hb.
    + rewrite Hcfg, He. simpl. lia.
    + exists st. rewrite Hl, Hl'. split; [reflexivity|].
      split; [lia|]. split; [congruence|]. rewrite Hcfg', Hcfg. reflexivity.
  - intros fuel Hf.
    destruct (Hfirst fuel []) as (s & b & Hl & Hcfg & He & Hi & Hb); [lia|].
    destruct (train_loop_to_prompt s b (fuel - Z.to_nat (max_epochs cfg)))
      as (st1 & b1 & Hcfg1 & He1 & Hi1 & _ & Hl').
    + rewrite Hcfg. exact Hc.
    + exact Hb.
    + rewrite Hcfg, He. simpl. lia.
    + rewrite Hl, Hl'. unfold ask_operator. rewrite Hi1, Hi.
      exists st1. split; [reflexivity|]. rewrite He1, Hcfg, He. simpl. lia.
Qed.
End Answers.

Lemma nonpositive_answers_cost_an_epoch_witness :
  exists st,
    train true example_loss ascii_int 4 example_config ["0"; "-2"; "abc"; "7"]%string
    = Finished st
    /\ epoch st = Z.max 1 (max_epochs example_config) + Z.of_nat (List.length ["0"; "-2"]%string)
    /\ stdin st = ["7"]%string
    /\ config st = example_config.
Proof.
  apply (nonpositive_answers_cost_an_epoch example_loss ascii_int example_config
           ["0"; "-2"]%string "abc"%string ["7"]%string 4%nat).
  - split; [discriminate|left; reflexivity].
  - repeat constructor.
    + exists 0. split; [reflexivity|lia].
    + exists (-2). split; [reflexivity|lia].
  - reflexivity.
  - vm_compute. discriminate.
Defined.

Lemma positive_answer_adds_epochs_witness :
  (exists st,
      train true example_loss ascii_int 3 example_config ["3"; "abc"]%string
      = StillRunning st
      /\ epoch st = 3 /\ stdin st = ["abc"]%string /\ max_epochs (config st) = 1 + 3)
  /\ exists st,
      train true example_loss ascii_int 6 example_config ["3"]%string
      = Raised EOFError st /\ epoch st = 1 + 3.
Proof.
  assert (Hc : runs_clean example_config) by (split; [discriminate|left; reflexivity]).
  assert (Hm : 1 <= max_epochs example_config) by (simpl; lia).
  assert (Hp : 0 < 3) by lia.
  pose proof (positive_answer_adds_epochs example_loss ascii_int example_config
                "3"%string 3 Hc Hm eq_refl Hp) as [H1 H2].
  split.
  - apply (H1 3%nat ["abc"]%string). simpl. lia.
  - apply (H2 6%nat). vm_compute. discriminate.
Defined.

(** ** Sampling *)

Section Sampling.
Variable test_pass : Z -> fval.
Variable int : string -> option Z.

Lemma sampled_app l1 l2 : sampled (l1 ++ l2) = sampled l1 ++ sampled l2.
Proof. apply flat_map_app. Qed.

Lemma epochs_upto_succ n :
  0 <= n -> epochs_upto (n + 1) = epochs_upto n ++ [n + 1].
Proof.
  intros Hn. unfold epochs_upto.
  replace (Z.to_nat (n + 1)) with (Z.to_nat n + 1)%nat by lia.
  rewrite seq_app, map_app. simpl. f_equal. f_equal. lia.
Qed.

Lemma body_samples st b every :
  samples_every (config st) every -> every <> 0 ->
  best_loss st = PyFloat b ->
  exists st1 b',
    run_epochs true test_pass (set_epoch (epoch st + 1) st) >>= end_of_epoch true
    = Done st1
    /\ config st1 = config st /\ epoch st1 = epoch st + 1
    /\ best_loss st1 = PyFloat b'
    /\ sampled (events st1)
       = sampled (events st)
         ++ (if sample_due every (epoch st + 1) then [epoch st + 1] else []).
Proof.
  destruct st as [cfg e bl tl inp ev]. simpl. intros (Hd & Hs & Hk) Hk0 ->.
  destruct (ckpt_dir cfg) as [d|] eqn:Ed; [clear Hd|congruence].
  destruct (samples_dir cfg) as [sd|] eqn:Es; [clear Hs|congruence].
  apply Z.eqb_neq in Hk0.
  unfold run_epochs, end_of_epoch, save_checkpoint, good_model, print_status,
    keep_best, save_checkpoint, maybe_sample, and_then, sample_due. simpl.
  rewrite Ed. simpl. rewrite Ed.
  destruct (flt (test_pass (e + 1)) b); simpl; rewrite ?Ed; simpl;
    rewrite Es; simpl; rewrite Hk, Hk0;
    destruct ((e + 1 + 1) mod every =? 0); simpl;
    eexists; eexists; (split; [reflexivity|]); simpl;
    rewrite ?sampled_app; simpl; rewrite ?app_nil_r; auto.
Qed.

Lemma ask_samples st every :
  samples_every (config st) every ->
  let st' := turn_state (ask_operator int st) in
  samples_every (config st') every /\ epoch st' = epoch st
  /\ best_loss st' = best_loss st
  /\ sampled (events st') = sampled (events st).
Proof.
  intros Hc. unfold ask_operator.
  destruct (stdin st) as [|line rest]; [simpl; auto|].
  cbv zeta.
  destruct (int line) as [temp|]; [destruct (temp >? 0)|]; simpl;
    rewrite sampled_app, app_nil_r; auto.
Qed.

Lemma turn_samples st b every :
  samples_every (config st) every -> every <> 0 ->
  best_loss st = PyFloat b ->
  let st' := turn_state (train_turn true test_pass int st) in
  samples_every (config st') every /\ epoch st' = epoch st + 1
  /\ (exists b', best_loss st' = PyFloat b')
  /\ sampled (events st')
     = sampled (events st)
       ++ (if sample_due every (epoch st + 1) then [epoch st + 1] else []).
Proof.
  intros Hc Hk Hb.
  destruct (body_samples st b every Hc Hk Hb) as (st1 & b' & Hbody & Hcfg & He & Hb' & Hs).
  unfold train_turn. rewrite Hbody.
  destruct (epoch st1 >=? max_epochs (config st1)).
  - destruct (ask_samples st1 every) as (Hc' & He' & Hb'' & Hs'); [rewrite Hcfg; exact Hc|].
    split; [exact Hc'|]. split; [congruence|]. split; [exists b'; congruence|].
    congruence.
  - simpl. split; [rewrite Hcfg; exact Hc|]. split; [exact He|].
    split; [exists b'; exact Hb'|exact Hs].
Qed.

Lemma train_loop_samples every fuel : forall st b,
  samples_every (config st) every -> every <> 0 ->
  best_loss st = PyFloat b -> 0 <= epoch st ->
  sampled (events st) = filter (sample_due every) (epochs_upto (epoch st)) ->
  let st' := end_state (train_loop true test_pass int fuel st) in
  sampled (events st') = filter (sample_due every) (epochs_upto (epoch st')).
Proof.
  induction fuel as [|fuel IH]; intros st b Hc Hk Hb He Hs; [exact Hs|].
  destruct (turn_samples st b every Hc Hk Hb) as (Hc' & He' & [b' Hb'] & Hs').
  assert (Hinv : sampled (events (turn_state (train_turn true test_pass int st)))
                 = filter (sample_due every)
                     (epochs_upto (epoch (turn_state (train_turn true test_pass int st))))).
  { rewrite Hs', He', epochs_upto_succ, filter_app, Hs by exact He. reflexivity. }
  cbn [train_loop].
  destruct (train_turn true test_pass int st) as [s|s|e s]; simpl in *;
    [|exact Hinv|exact Hinv].
  apply (IH s b'); auto. lia.
Qed.

(** X22.  With a test set, a checkpoint directory, a samples directory and
    a non-zero [sample_every]: however [train] ends and whatever the
    operator answers, [self.test] has been called exactly at the epochs e
    run so far for which [e + 1] is a multiple of [sample_every], in order.
    With [sample_every = k > 1] the first samples come at epoch k - 1, not
    k. *)
Theorem train_samples_when_due cfg every lines fuel :
  ckpt_dir cfg <> None -> samples_dir cfg <> None ->
  sample_every cfg = every -> every <> 0 ->
  let st := end_state (train true test_pass int fuel cfg lines) in
  sampled (events st) = filter (sample_due every) (epochs_upto (epoch st)).
Proof.
  intros Hd Hs Hk Hk0. unfold train.
  apply (train_loop_samples every fuel (initial_state cfg lines) PInf); auto.
  - repeat split; auto.
  - simpl. lia.
Qed.

(** X23.  With a test set, a checkpoint directory, a samples directory and
    [sample_every = 0]: the first epoch writes its checkpoint and then
    [train] raises ZeroDivisionError at the test of
    [(epoch+1) % sample_every]; nothing is sampled and no line is read. *)
Theorem train_sample_every_0_raises cfg lines fuel :
  ckpt_dir cfg <> None -> samples_dir cfg <> None -> sample_every cfg = 0 ->
  exists st,
    train true test_pass int (S fuel) cfg lines = Raised ZeroDivisionError st
    /\ epoch st = 1 /\ stdin st = lines
    /\ In (SaveCheckpoint (Some 1)) (events st)
    /\ sampled (events st) = [].
Proof.
  intros Hd Hs Hk.
  destruct (ckpt_dir cfg) as [d|] eqn:Ed; [clear Hd|congruence].
  destruct (samples_dir cfg) as [sd|] eqn:Es; [clear Hs|congruence].
  unfold train. cbn [train_loop]. unfold train_turn, run_epochs, end_of_epoch,
    save_checkpoint, good_model, print_status, keep_best, save_checkpoint,
    maybe_sample, and_then. simpl.
  rewrite Ed. simpl. rewrite Ed.
  destruct (flt (test_pass 1) PInf); simpl; rewrite ?Ed; simpl; rewrite Es; simpl;
    rewrite Hk; simpl; eexists; (split; [reflexivity|]); simpl; auto 10.
Qed.
End Sampling.

Lemma train_samples_when_due_witness :
  sampled (events (end_state (train true example_loss ascii_int 7
                                (with_samples (set_max_epochs example_config 6) 3) [])))
  = [2; 5].
Proof.
  rewrite (train_samples_when_due example_loss ascii_int
             (with_samples (set_max_epochs example_config 6) 3) 3 [] 7).
  - reflexivity.
  - discriminate.
  - discriminate.
  - reflexivity.
  - discriminate.
Defined.

Lemma train_sample_every_0_raises_witness :
  exists st,
    train true example_loss ascii_int 1 (with_samples example_config 0) ["3"]%string
    = Raised ZeroDivisionError st
    /\ epoch st = 1 /\ stdin st = ["3"]%string
    /\ In (SaveCheckpoint (Some 1)) (events st)
    /\ sampled (events st) = [].
Proof.
  apply (train_sample_every_0_raises example_loss ascii_int
           (with_samples example_config 0) ["3"]%string 0).
  - discriminate.
  - discriminate.
  - reflexivity.
Defined.

(** ** Checkpoint files *)

Lemma append_assoc (a b c : string) : ((a ++ b) ++ c = a ++ (b ++ c))%string.
Proof. induction a as [|x a IH]; simpl; [reflexivity|]. rewrite IH. reflexivity. Qed.

Lemma append_length (a b : string) :
  String.length (a ++ b) = (String.length a + String.length b)%nat.
Proof. induction a as [|x a IH]; simpl; [reflexivity|]. rewrite IH. reflexivity. Qed.

Lemma append_inj_l (a b c : string) : (a ++ b = a ++ c)%string -> b = c.
Proof.
  induction a as [|x a IH]; simpl; intros H; [exact H|].
  injection H as H. apply IH, H.
Qed.

Lemma append_inj_r (t : string) : forall a b : string,
  (a ++ t = b ++ t)%string -> a = b.
Proof.
  induction a as [|x a IH]; intros [|y b] H; simpl in H.
  - reflexivity.
  - apply (f_equal String.length) in H. simpl in H. rewrite append_length in H. lia.
  - apply (f_equal String.length) in H. simpl in H. rewrite append_length in H. lia.
  - injection H as -> H. f_equal. apply IH, H.
Qed.

Lemma str_inj a b : str a = str b -> a = b.
Proof.
  unfold str. intros H.
  assert (Hn : forall n, Z.to_int n <> Decimal.Pos Decimal.Nil
                         /\ Z.to_int n <> Decimal.Neg Decimal.Nil).
  { intros [|p|p]; simpl; split; try discriminate;
      intros E; injection E as E; exact (DecimalPos.Unsigned.to_uint_nonnil p E). }
  apply (f_equal DecimalString.NilZero.int_of_string) in H.
  rewrite !DecimalString.NilZero.isi in H by apply Hn.
  injection H as H. apply DecimalZ.to_int_inj, H.
Qed.

Lemma checkpoint_file_inj i j : checkpoint_file i = checkpoint_file j -> i = j.
Proof.
  unfold checkpoint_file. destruct i as [a|], j as [b|]; simpl; intros H.
  - injection H as H. apply append_inj_r, str_inj in H. congruence.
  - discriminate.
  - discriminate.
  - reflexivity.
Qed.

Lemma os_path_join_file dir id :
  os_path_join dir (checkpoint_file id)
  = (dir ++ (if (dir =? "")%string || endswith_sep dir then "" else "/")
         ++ checkpoint_file id)%string.
Proof.
  unfold os_path_join.
  assert (E : prefix "/" (checkpoint_file id) = false) by reflexivity.
  rewrite E. destruct (_ || _); reflexivity.
Qed.

(** The path that [save_checkpoint(id)] writes determines [id]. *)
Lemma save_path_inj cfg i j :
  ckpt_dir cfg <> None -> save_path cfg i = save_path cfg j -> i = j.
Proof.
  unfold save_path. destruct (ckpt_dir cfg) as [dir|]; [intros _ H|congruence].
  injection H as H. rewrite !os_path_join_file in H.
  apply append_inj_l, append_inj_l in H. apply checkpoint_file_inj, H.
Qed.

(** X24.  With a checkpoint directory, [save_checkpoint] writes different
    ids to different files: the checkpoints of two different epochs never
    share a file, and none of them is written to the file of the best model
    (id [None]). *)
Theorem save_path_determines_id cfg i j :
  ckpt_dir cfg <> None -> i <> j -> save_path cfg i <> save_path cfg j.
Proof. intros Hd Hij H. apply Hij. exact (save_path_inj cfg i j Hd H). Qed.

Lemma save_path_determines_id_witness :
  save_path example_config (Some 1) <> save_path example_config (Some 2)
  /\ save_path example_config (Some 1) <> save_path example_config None.
Proof.
  split; apply (save_path_determines_id example_config); discriminate.
Defined.

(** X25.  [load_checkpoint] reads from the directory "save" whatever
    [ckpt_dir] is.  With [ckpt_dir] "save" or "save/" it reads the file that
    [save_checkpoint(id)] wrote when [load_name] is "checkpoint" for the
    best model and "checkpointNo.<id>" for an epoch. *)
Theorem load_path_reads_saved cfg id :
  ckpt_dir cfg = Some "save"%string \/ ckpt_dir cfg = Some "save/"%string ->
  save_path cfg id = Ok (load_path (load_name_of id)).
Proof.
  unfold save_path, load_path, load_name_of.
  intros [-> | ->]; rewrite os_path_join_file; simpl; rewrite ?append_assoc; reflexivity.
Qed.

Lemma load_path_reads_saved_witness :
  save_path example_config (Some 3) = Ok "save/checkpointNo.3.pth"%string.
Proof.
  apply (load_path_reads_saved example_config (Some 3)). left. reflexivity.
Defined.
